(** * Ember: model invocation and ensemble orchestration

    A shallow embedding of
    - [ember/core/registry/model/providers/huggingface/huggingface_provider.py]
      (parameter normalisation, model-name resolution, the retried [forward],
      token counting, usage and cost), and
    - [ember/core/registry/operator/core/ensemble.py] (the ensemble operator),
    followed by the properties of the specification that concern them.

    Python objects mutated in place ([self.tokenizer], [self._local_model],
    the logger, the network) are threaded as an explicit state; a raised
    exception is the [Raise] branch of [result] and keeps the state reached
    so far, as in Python. *)

From Stdlib Require Import ZArith Floats String Ascii List Lia.
From stdpp Require Import gmap strings list pretty.

Set Warnings "-inexact-float,-register-all".
Local Open Scope string_scope.
Local Open Scope Z_scope.

(** ** Python values, exceptions and the state-and-exception monad *)

Module Py.

(** The values that travel in keyword dictionaries.  A [float] is an IEEE
    binary64 number, as in CPython. *)
Inductive value : Type :=
| VNone
| VBool (b : bool)
| VInt (z : Z)
| VFloat (f : float)
| VStr (s : string)
| VList (l : list value)
| VDict (d : gmap string value).

(** [v is None] *)
Definition is_none (v : value) : bool :=
  match v with VNone => true | _ => false end.

(** Truth value of an object, as tested by [if v:] and [not v]. *)
Definition truthy (v : value) : bool :=
  match v with
  | VNone => false
  | VBool b => b
  | VInt z => negb (z =? 0)
  | VFloat f => negb (PrimFloat.eqb f 0%float)
  | VStr s => negb (String.eqb s "")
  | VList l => match l with [] => false | _ => true end
  | VDict d => negb (Nat.eqb (size d) 0)
  end.

(** Exceptions.  The classes of [ember.core.exceptions] and of
    [model_registry_exceptions] carry a message and keyword context;
    [HTTPError] is [requests.exceptions.HTTPError], whose [response]
    attribute is [None] or a response with its status code; [Raised]
    stands for any other exception raised by a collaborator (its class
    name and message). *)
Inductive exn : Type :=
| InvalidPromptError (message provider model_name : string)
| ValidationError (message provider : string)
| ProviderAPIError (provider_name message : string) (cause : exn)
| HTTPError (response : option Z) (message : string)
| OverflowError (message : string)
| TypeError (message : string)
| AttributeError (message : string)
| Raised (class_name message : string).

(** [str(exc)] *)
Definition exn_str (e : exn) : string :=
  match e with
  | InvalidPromptError m _ _ | ValidationError m _ | ProviderAPIError _ m _
  | HTTPError _ m | OverflowError m | TypeError m | AttributeError m
  | Raised _ m => m
  end.

Inductive result (A : Type) : Type :=
| Ok (a : A)
| Raise (e : exn).
Arguments Ok {A} a.
Arguments Raise {A} e.

Definition is_ok {A} (r : result A) : bool :=
  match r with Ok _ => true | Raise _ => false end.

(** A computation over a mutable state [St] that returns or raises. *)
Definition M (St A : Type) : Type := St -> result A * St.

Definition ret {St A} (a : A) : M St A := fun st => (Ok a, st).

Definition raise {St A} (e : exn) : M St A := fun st => (Raise e, st).

Definition bind {St A B} (c : M St A) (k : A -> M St B) : M St B :=
  fun st =>
    match c st with
    | (Ok a, st') => k a st'
    | (Raise e, st') => (Raise e, st')
    end.

(** [try: body  except Exception as exc: handler(exc)] *)
Definition try_except {St A} (body : M St A) (handler : exn -> M St A)
  : M St A :=
  fun st =>
    match body st with
    | (Ok a, st') => (Ok a, st')
    | (Raise e, st') => handler e st'
    end.

Definition get {St} : M St St := fun st => (Ok st, st).

Definition modify {St} (f : St -> St) : M St unit := fun st => (Ok tt, f st).

(** The outcome of a pure, fallible step. *)
Definition lift {St A} (r : result A) : M St A := fun st => (r, st).

(** [d.pop(key, default)]: the value removed and the remaining dict. *)
Definition pop (key : string) (dflt : value) (d : gmap string value)
  : value * gmap string value :=
  (default dflt (d !! key), delete key d).

(** [d.update(other)] *)
Definition update (d other : gmap string value) : gmap string value :=
  other ∪ d.

End Py.

Export Py.

Declare Scope py_scope.
Delimit Scope py_scope with py.
Notation "'let*' x ':=' c 'in' k" := (Py.bind c (fun x => k))
  (at level 100, x pattern, c at next level, k at level 200,
   right associativity) : py_scope.
Notation "c ';;' k" := (Py.bind c (fun _ => k))
  (at level 100, k at level 200, right associativity) : py_scope.
Local Open Scope py_scope.

(** ** Built-in operations on [str] and [float]

    A character of a [string] is read as the code point of the same number
    (the Latin-1 range of Python's [str]). *)

Module Builtins.

(** [c.isspace()] on the code points below 256: TAB..CR, FS..US, SPACE,
    NEL (0x85) and NBSP (0xA0). *)
Definition isspace (c : ascii) : bool :=
  let n := N_of_ascii c in
  ((9 <=? n) && (n <=? 13) || (28 <=? n) && (n <=? 32)
   || (n =? 133) || (n =? 160))%N.

(** [s.split()] splits at runs of whitespace and yields no empty word;
    [word] is the word being read. *)
Fixpoint split_from (word s : string) : list string :=
  match s with
  | EmptyString => match word with EmptyString => [] | _ => [word] end
  | String c s' =>
      if isspace c
      then match word with
           | EmptyString => split_from EmptyString s'
           | _ => word :: split_from EmptyString s'
           end
      else split_from (word +:+ String c EmptyString) s'
  end.

Definition split (s : string) : list string := split_from EmptyString s.

(** [s.lstrip()] *)
Fixpoint lstrip (s : string) : string :=
  match s with
  | EmptyString => EmptyString
  | String c s' => if isspace c then lstrip s' else s
  end.

(** [s.startswith(p)] *)
Definition startswith (p s : string) : bool := String.prefix p s.

(** [s[n:]] *)
Definition slice_from (n : nat) (s : string) : string :=
  String.substring n (String.length s - n) s.

(** The integers of magnitude below [float_limit], half a unit in the last
    place under [2 ^ 1024], are those that round to a finite binary64. *)
Definition float_limit : Z := 2 ^ 1024 - 2 ^ 970.

(** The binary64 nearest to an integer, ties to even. *)
Definition float_of_int (z : Z) : float :=
  SF2Prim (binary_normalize prec emax z 0 false).

(** Conversion of the [int] operand of [int / float]: the nearest binary64,
    and [OverflowError] when the integer rounds beyond the binary64 range. *)
Definition int_to_float (z : Z) : result float :=
  if Z.abs z <? float_limit
  then Ok (float_of_int z)
  else Raise (OverflowError "int too large to convert to float").

(** Nearest integer to [num / den] for [den > 0], ties to even. *)
Definition round_half_even (num den : Z) : Z :=
  let q := num / den in
  let r := num mod den in
  match (2 * r) ?= den with
  | Lt => q
  | Gt => q + 1
  | Eq => if Z.even q then q else q + 1
  end.

(** Nearest binary64 (ties to even) to [num / den] for [num, den > 0],
    with the given sign: the quotient is taken with 64 or more bits and a
    sticky bit before the final rounding. *)
Definition float_of_ratio (sign : bool) (num den : Z) : float :=
  let k := Z.max 0 (64 + Z.log2 den - Z.log2 num) in
  let q := (num * 2 ^ k) / den in
  let sticky := if (num * 2 ^ k) mod den =? 0 then 0 else 1 in
  let mant := 2 * q + sticky in
  SF2Prim (binary_normalize prec emax
             (if sign then - mant else mant) (- (k + 1)) sign).

(** [round(x, ndigits)] for a float [x] and [ndigits >= 0]: the value of
    [x] is rounded to a multiple of [10 ^ -ndigits] (ties to even, on the
    exact value of [x]) and the nearest binary64 to that decimal is
    returned; NaN, infinities and zeros are returned as they are. *)
Definition float_round (x : float) (ndigits : nat) : float :=
  match Prim2SF x with
  | S754_finite sign m e =>
      let p10 := 10 ^ Z.of_nat ndigits in
      let n := if 0 <=? e
               then Z.pos m * 2 ^ e * p10
               else round_half_even (Z.pos m * p10) (2 ^ (- e)) in
      if n =? 0 then (if sign then (-0)%float else 0%float)
      else float_of_ratio sign n p10
  | _ => x
  end.

End Builtins.

Export Builtins.

(** ** The retry decorator *)

Module Tenacity.

(** Modelled from the spec: the [tenacity] package that provides [retry],
    [wait_exponential] and [stop_after_attempt] is a dependency whose code
    is not among the sources.  Section 4.3: up to [max_attempt_number]
    attempts; the wait after a failed attempt grows exponentially from 1,
    [multiplier * exp_base ^ (n - 1)] after attempt [n], kept within [min]
    and [max]; when the attempts are exhausted the last exception is
    re-raised as it is ([reraise=True]).  The decorator of [forward] names
    no [retry=] condition: whatever exception an attempt raises, another
    attempt follows while the stop condition allows one. *)
Definition wait_exponential (multiplier max exp_base min : Z)
    (attempt_number : Z) : Z :=
  Z.max (Z.max 0 min) (Z.min (multiplier * exp_base ^ (attempt_number - 1)) max).

(** Modelled from the spec: [stop_after_attempt(n)], the stop condition
    that ends the retrying once attempt number [n] has been made. *)
Inductive stop : Type :=
| stop_after_attempt (max_attempt_number : nat).

Section Retry.
Context {St A : Type}.
(** [wait]: seconds to sleep after a failed attempt; [sleep]: the effect
    of sleeping on the state. *)
Variable wait : Z -> Z.
Variable sleep : Z -> St -> St.
Variable fn : M St A.

(** Modelled from the spec: attempt number [attempt_number] and, while it
    raises and attempts remain, a sleep and the next attempt; the exception
    of the last attempt is re-raised as it is. *)
Fixpoint attempts (remaining : nat) (attempt_number : Z) : M St A :=
  fun st =>
    match fn st with
    | (Ok a, st') => (Ok a, st')
    | (Raise e, st') =>
        match remaining with
        | O => (Raise e, st')
        | S remaining' =>
            attempts remaining' (attempt_number + 1)
                     (sleep (wait attempt_number) st')
        end
    end.

(** Modelled from the spec: [retry(wait=wait, stop=stop_after_attempt(n),
    reraise=True)(fn)].  The first attempt is always made. *)
Definition retry (s : stop) : M St A :=
  match s with
  | stop_after_attempt max_attempt_number =>
      attempts (Nat.pred max_attempt_number) 1
  end.
End Retry.

End Tenacity.

(** ** huggingface_provider.py *)

Module HuggingFace.

(** *** Data *)

(** [ModelInfo] with its cost schedule (per 1000 tokens). *)
Record ModelCost : Type := {
  input_cost_per_thousand : float;
  output_cost_per_thousand : float
}.

Record ModelInfo : Type := {
  name : string;
  cost : ModelCost
}.

(** [ChatRequest].  [None] is Python's [None]; [temperature] and [timeout]
    are kept as the values they are, [VNone] when unset. *)
Record ChatRequest : Type := {
  prompt : option string;
  context : option string;
  temperature : value;
  max_tokens : option Z;
  timeout : value;
  provider_params : gmap string value
}.

(** A validated [HuggingFaceChatParameters] object. *)
Record HuggingFaceChatParameters : Type := {
  p_prompt : string;
  p_context : option string;
  p_temperature : value;
  p_max_tokens : Z;
  p_timeout : value
}.

(** The ["usage"] entry of a raw output; a key may be absent. *)
Record UsageData : Type := {
  usage_prompt_tokens : option Z;
  usage_completion_tokens : option Z
}.

(** The raw output dictionary; the ["usage"] key may be absent. *)
Record RawOutput : Type := {
  generated_text : string;
  model : string;
  usage : option UsageData
}.

Record UsageStats : Type := {
  total_tokens : Z;
  prompt_tokens : Z;
  completion_tokens : Z;
  cost_usd : float
}.

Record ChatResponse : Type := {
  data : string;
  raw_output : RawOutput;
  response_usage : UsageStats
}.

(** What a text-generation pipeline returns: a list, or another object
    given by its [str()]. *)
Inductive PipelineResult : Type :=
| PList (l : list value)
| POther (str : string).

Inductive Level : Type := INFO | WARNING | ERROR.

Record LogRecord : Type := {
  level : Level;
  msg : string;
  args : list string
}.

(** Calls that leave the process, and sleeps of the retry decorator, in the
    order they happen. *)
Inductive Event : Type :=
| EvModelInfo (model_name : string)
| EvTokenizerLoad (model_id : string)
| EvModelLoad (model_id : string)
| EvPipeline
| EvEncode (text : value)
| EvPipelineCall (prompt : value) (kwargs : gmap string value)
| EvTextGeneration (prompt : value) (model_id : string)
                   (kwargs : gmap string value)
| EvSleep (seconds : Z).

(** The collaborators of the adapter: the Hub catalogue, the [transformers]
    loaders, the tokenizer, the local pipeline and the inference client.
    Each call may change the outside [World] and may raise. *)
Class Backend : Type := {
  World : Type;
  Tokenizer : Type;
  Model : Type;
  Pipeline : Type;
  HfApi_model_info : string -> World -> result unit * World;
  AutoTokenizer_from_pretrained : string -> World -> result Tokenizer * World;
  tokenizer_encode : Tokenizer -> value -> World -> result (list Z) * World;
  AutoModelForCausalLM_from_pretrained :
    string -> World -> result Model * World;
  pipeline : Model -> Tokenizer -> World -> result Pipeline * World;
  pipeline_call :
    Pipeline -> value -> gmap string value -> World ->
    result PipelineResult * World;
  client_text_generation :
    value -> string -> gmap string value -> World -> result string * World;
  (** The qualified name of [client.text_generation], as CPython prints
      the callee in the [TypeError] of a call. *)
  text_generation_name : string;
  (** Modelled from the spec: [BaseChatParameters.build_prompt] is not
      among the sources; section 4.1: the outbound prompt is built from
      the optional context and the query by a pure rendering function. *)
  build_prompt : option string -> string -> string
}.

Section Adapter.
Context `{Backend}.

(** The attributes of a [HuggingFaceModel] instance together with the
    outside world, the log and the trace of external calls. *)
Record State : Type := {
  model_info : ModelInfo;
  tokenizer : option Tokenizer;
  _local_model : option Pipeline;
  world : World;
  log : list LogRecord;
  trace : list Event
}.

Definition set_tokenizer (t : option Tokenizer) (st : State) : State :=
  {| model_info := model_info st; tokenizer := t;
     _local_model := _local_model st; world := world st;
     log := log st; trace := trace st |}.

Definition set_local_model (m : option Pipeline) (st : State) : State :=
  {| model_info := model_info st; tokenizer := tokenizer st;
     _local_model := m; world := world st;
     log := log st; trace := trace st |}.

Definition set_world (w : World) (st : State) : State :=
  {| model_info := model_info st; tokenizer := tokenizer st;
     _local_model := _local_model st; world := w;
     log := log st; trace := trace st |}.

Definition add_log (r : LogRecord) (st : State) : State :=
  {| model_info := model_info st; tokenizer := tokenizer st;
     _local_model := _local_model st; world := world st;
     log := log st ++ [r]; trace := trace st |}.

Definition add_event (ev : Event) (st : State) : State :=
  {| model_info := model_info st; tokenizer := tokenizer st;
     _local_model := _local_model st; world := world st;
     log := log st; trace := trace st ++ [ev] |}.

(** [logger.info], [logger.warning], [logger.error]/[logger.exception] *)
Definition logger (lv : Level) (m : string) (a : list string)
  : M State unit :=
  modify (add_log {| level := lv; msg := m; args := a |}).

(** A call to a collaborator, recorded in the trace. *)
Definition extern {A} (ev : Event) (f : World -> result A * World)
  : M State A :=
  fun st =>
    let (r, w) := f (world st) in (r, set_world w (add_event ev st)).

Definition PROVIDER_NAME : string := "HuggingFace".

(** *** HuggingFaceChatParameters *)

Definition enforce_default_if_none (value : option Z) : Z :=
  match value with None => 512 | Some value => value end.

Definition ensure_positive (value : Z) : result Z :=
  if value <=? 0
  then Raise (ValidationError
                ("max_tokens must be a positive integer, got "
                 +:+ pretty value)
                "HuggingFace")
  else Ok value.

(** [HuggingFaceChatParameters(prompt=.., context=.., temperature=..,
    max_tokens=.., timeout=..)]: the two validators of [max_tokens] run
    in turn, the "before" one first, and what [ensure_positive] raises
    reaches the caller of the constructor.  The other fields, declared in
    [BaseChatParameters], come from a [ChatRequest] and are kept as they
    are. *)
Definition HuggingFaceChatParameters_init (prompt : string)
    (context : option string) (temperature : value)
    (max_tokens : option Z) (timeout : value)
  : result HuggingFaceChatParameters :=
  match ensure_positive (enforce_default_if_none max_tokens) with
  | Raise e => Raise e
  | Ok max_tokens =>
      Ok {| p_prompt := prompt; p_context := context;
            p_temperature := temperature; p_max_tokens := max_tokens;
            p_timeout := timeout |}
  end.

Definition to_huggingface_kwargs (self : HuggingFaceChatParameters)
  : gmap string value :=
  let prompt := build_prompt (p_context self) (p_prompt self) in
  {[ "prompt" := VStr prompt;
     "max_new_tokens" := VInt (p_max_tokens self);
     "temperature" := p_temperature self;
     "timeout" := p_timeout self ]}.

(** [{k: v for k, v in provider_params.items() if v is not None}] *)
Definition not_none_items (provider_params : gmap string value)
  : gmap string value :=
  omap (fun v => if is_none v then None else Some v) provider_params.

(** Lines 461-471 of [forward]: the request (its prompt already checked)
    converted to keyword arguments and merged with the provider
    parameters. *)
Definition merged_kwargs (request_prompt : string) (request : ChatRequest)
  : result (gmap string value) :=
  match HuggingFaceChatParameters_init request_prompt (context request)
          (temperature request) (max_tokens request) (timeout request) with
  | Raise e => Raise e
  | Ok hf_parameters =>
      let hf_kwargs := to_huggingface_kwargs hf_parameters in
      Ok (update hf_kwargs (not_none_items (provider_params request)))
  end.

(** *** HuggingFaceModel *)

Definition default_model : string := "mistralai/Mistral-7B-Instruct-v0.2".

(** [if raw_name.startswith("huggingface:"): raw_name = raw_name[12:]] *)
Definition strip_provider_prefix (raw_name : string) : string :=
  if startswith "huggingface:" raw_name
  then slice_from 12 raw_name else raw_name.

Definition _normalize_huggingface_model_name (raw_name : string)
  : M State string :=
  let raw_name := strip_provider_prefix raw_name in
  try_except
    (extern (EvModelInfo raw_name) (HfApi_model_info raw_name);;
     ret raw_name)
    (fun exc =>
       logger WARNING
         "HuggingFace model '%s' not found on Hub. Falling back to '%s': %s"
         [raw_name; default_model; exn_str exc];;
       ret default_model).

Definition _load_local_model (model_id : string) : M State Pipeline :=
  try_except
    (logger INFO "Loading model %s locally" [model_id];;
     let* tk := extern (EvTokenizerLoad model_id)
                       (AutoTokenizer_from_pretrained model_id) in
     modify (set_tokenizer (Some tk));;
     let* model := extern (EvModelLoad model_id)
                          (AutoModelForCausalLM_from_pretrained model_id) in
     let* generation_pipeline := extern EvPipeline (pipeline model tk) in
     logger INFO "Successfully loaded model %s locally" [model_id];;
     ret generation_pipeline)
    (fun exc =>
       logger ERROR "Failed to load local model: %s" [exn_str exc];;
       raise (ProviderAPIError PROVIDER_NAME
                ("Failed to load local model: " +:+ exn_str exc) exc)).

(** The [try] block of [_count_tokens]. *)
Definition count_with_tokenizer (text : value) : M State Z :=
  let* self := get in
  let* tk :=
    match tokenizer self with
    | None =>
        let* model_id :=
          _normalize_huggingface_model_name (name (model_info self)) in
        let* tk := extern (EvTokenizerLoad model_id)
                          (AutoTokenizer_from_pretrained model_id) in
        modify (set_tokenizer (Some tk));;
        ret tk
    | Some tk => ret tk
    end in
  let* tokens := extern (EvEncode text) (tokenizer_encode tk text) in
  ret (Z.of_nat (length tokens)).

(** [text] is annotated [str]; [split] exists on a [str] only. *)
Definition _count_tokens (text : value) : M State Z :=
  try_except
    (count_with_tokenizer text)
    (fun exc =>
       logger WARNING
         "Failed to count tokens, estimating based on words: %s"
         [exn_str exc];;
       match text with
       | VStr text => ret (Z.of_nat (length (split text)))
       | _ => raise (AttributeError "object has no attribute 'split'")
       end).

Definition calculate_usage (info : ModelInfo) (raw_output : RawOutput)
  : result UsageStats :=
  let usage_data :=
    default {| usage_prompt_tokens := None;
               usage_completion_tokens := None |} (usage raw_output) in
  let prompt_tokens := default 0 (usage_prompt_tokens usage_data) in
  let completion_tokens := default 0 (usage_completion_tokens usage_data) in
  let total_tokens := prompt_tokens + completion_tokens in
  match int_to_float prompt_tokens with
  | Raise e => Raise e
  | Ok prompt_tokens_f =>
      let input_cost :=
        (prompt_tokens_f / 1000 * input_cost_per_thousand (cost info))%float in
      match int_to_float completion_tokens with
      | Raise e => Raise e
      | Ok completion_tokens_f =>
          let output_cost :=
            (completion_tokens_f / 1000
             * output_cost_per_thousand (cost info))%float in
          let total_cost := float_round (input_cost + output_cost) 6 in
          Ok {| total_tokens := total_tokens;
                prompt_tokens := prompt_tokens;
                completion_tokens := completion_tokens;
                cost_usd := total_cost |}
      end
  end.

(** [d.pop(key)]: [KeyError] when the key is absent. *)
Definition pop_required (key : string) (d : gmap string value)
  : M State (value * gmap string value) :=
  match d !! key with
  | Some v => ret (v, delete key d)
  | None => raise (Raised "KeyError" key)
  end.

(** The raw output built on both paths, with both counts taken by
    [_count_tokens], the prompt first. *)
Definition make_raw_output (prompt : value) (generated_text model_id : string)
  : M State RawOutput :=
  let* prompt_tokens := _count_tokens prompt in
  let* completion_tokens := _count_tokens (VStr generated_text) in
  ret {| generated_text := generated_text;
         model := model_id;
         usage := Some {| usage_prompt_tokens := Some prompt_tokens;
                          usage_completion_tokens :=
                            Some completion_tokens |} |}.

(** The [if use_local:] branch. *)
Definition local_inference (model_id : string)
    (hf_kwargs : gmap string value) : M State RawOutput :=
  let* self := get in
  let* local_model :=
    match _local_model self with
    | None =>
        let* m := _load_local_model model_id in
        modify (set_local_model (Some m));;
        ret m
    | Some m => ret m
    end in
  let* (prompt, hf_kwargs) := pop_required "prompt" hf_kwargs in
  let '(max_new_tokens, hf_kwargs) :=
    pop "max_new_tokens" (VInt 512) hf_kwargs in
  let '(temperature, hf_kwargs) :=
    pop "temperature" (VFloat 0.7) hf_kwargs in
  let call_kwargs :=
    <["max_new_tokens" := max_new_tokens]>
      (<["temperature" := temperature]> hf_kwargs) in
  let* result := extern (EvPipelineCall prompt call_kwargs)
                        (pipeline_call local_model prompt call_kwargs) in
  let* generated_text :=
    match result with
    | PList (VDict d :: _) =>
        match default (VStr "") (d !! "generated_text"), prompt with
        | VStr generated_text, VStr prompt =>
            ret (if startswith prompt generated_text
                 then lstrip (slice_from (String.length prompt)
                                         generated_text)
                 else generated_text)
        | VStr _, _ =>
            raise (TypeError "startswith first arg must be str")
        | _, _ =>
            raise (AttributeError "object has no attribute 'startswith'")
        end
    | PList (_ :: _) =>
        raise (AttributeError "object has no attribute 'get'")
    | PList [] => ret "[]"
    | POther str => ret str
    end in
  make_raw_output prompt generated_text model_id.

(** The value bound to the local variable [timeout] on the remote path. *)
Definition remote_timeout (hf_kwargs : gmap string value) : value :=
  fst (pop "timeout" (VInt 30) hf_kwargs).

(** [TypeError] of a call that gives the keyword [key] twice: CPython
    names the callee, then the keyword. *)
Definition multiple_values (callee key : string) : exn :=
  TypeError (callee +:+ "() got multiple values for keyword argument '"
               +:+ key +:+ "'").

(** The [else:] branch: one call of [client.text_generation], given the
    prompt, the model and the remaining keyword arguments; a ["model"]
    key among them would be passed twice, which Python rejects before the
    call is made. *)
Definition remote_inference (model_id : string)
    (hf_kwargs : gmap string value) : M State RawOutput :=
  let '(timeout, hf_kwargs) := pop "timeout" (VInt 30) hf_kwargs in
  let* (prompt, hf_kwargs) := pop_required "prompt" hf_kwargs in
  let* response :=
    match hf_kwargs !! "model" with
    | Some _ => raise (multiple_values text_generation_name "model")
    | None =>
        extern (EvTextGeneration prompt model_id hf_kwargs)
               (client_text_generation prompt model_id hf_kwargs)
    end in
  let generated_text := response in
  make_raw_output prompt generated_text model_id.

(** The two [except] clauses of [forward].  The first reads
    [http_err.response.status_code] unguarded: on an HTTP error without a
    response that raises [AttributeError] inside the handler, which the
    second clause, a sibling of the first, does not catch. *)
Definition forward_except {A} (exc : exn) : M State A :=
  match exc with
  | HTTPError (Some status_code) _ =>
      (if (500 <=? status_code) && (status_code <? 600)
       then logger ERROR "HuggingFace server error: %s" [exn_str exc]
       else ret tt);;
      raise exc
  | HTTPError None _ =>
      raise (AttributeError
               "'NoneType' object has no attribute 'status_code'")
  | _ =>
      logger ERROR "Unexpected error in HuggingFaceModel.forward()" [];;
      raise (ProviderAPIError PROVIDER_NAME
               ("API error: " +:+ exn_str exc) exc)
  end.

(** The body of [forward], one attempt of the decorated method. *)
Definition forward_body (request : ChatRequest) : M State ChatResponse :=
  let* self := get in
  match prompt request with
  | None | Some EmptyString =>
      raise (InvalidPromptError "HuggingFace prompt cannot be empty."
               PROVIDER_NAME (name (model_info self)))
  | Some request_prompt =>
      logger INFO "HuggingFace forward invoked"
        [PROVIDER_NAME; name (model_info self);
         pretty (String.length request_prompt)];;
      let* hf_kwargs := lift (merged_kwargs request_prompt request) in
      let* model_id :=
        _normalize_huggingface_model_name (name (model_info self)) in
      let '(use_local, hf_kwargs) :=
        pop "use_local_model" (VBool false) hf_kwargs in
      try_except
        (let* raw_output :=
           if truthy use_local
           then local_inference model_id hf_kwargs
           else remote_inference model_id hf_kwargs in
         let* usage_stats :=
           lift (calculate_usage (model_info self) raw_output) in
         ret {| data := generated_text raw_output;
                raw_output := raw_output;
                response_usage := usage_stats |})
        forward_except
  end.

(** The sleep of the retry decorator. *)
Definition sleep (seconds : Z) (st : State) : State :=
  add_event (EvSleep seconds) st.

(** [@retry(wait=wait_exponential(min=1, max=10),
    stop=stop_after_attempt(3), reraise=True)]; the multiplier is 1 and
    the base 2 by default. *)
Definition forward (request : ChatRequest) : M State ChatResponse :=
  Tenacity.retry (Tenacity.wait_exponential 1 10 2 1) sleep
                 (forward_body request) (Tenacity.stop_after_attempt 3).

End Adapter.
End HuggingFace.

(** ** huggingface_provider.py: the inference client *)

Module HuggingFaceClient.
Import HuggingFace.

Section Client.
Context `{Backend}.

(** What [InferenceClient(token=...)] builds; building it may raise. *)
Variable Client : Type.
Variable InferenceClient : string -> result Client.

(** Modelled from the spec: [ModelInfo.get_api_key] is not among the
    sources; section 6: the credential collaborator supplies the key, and
    may have none. *)
Variable get_api_key : ModelInfo -> option string.

(** [ModelProviderError.for_provider(provider_name=.., message=..)], a class
    of [ember.core.exceptions], with the message it is given. *)
Definition missing_token_error : exn :=
  Raised "ModelProviderError" "HuggingFace API token is missing or invalid.".

Definition create_client : M State Client :=
  let* self := get in
  match get_api_key (model_info self) with
  | None | Some EmptyString => raise missing_token_error
  | Some api_key =>
      let* client := lift (InferenceClient api_key) in
      try_except
        (let* model_id :=
           _normalize_huggingface_model_name (name (model_info self)) in
         logger INFO "Initialized HuggingFace Inference client for model: %s"
                [model_id])
        (fun exc =>
           logger WARNING "Could not verify HuggingFace model information: %s"
                  [exn_str exc]);;
      ret client
  end.

End Client.
End HuggingFaceClient.

(** ** ensemble.py *)

Module Ensemble.

Record EnsembleOperatorInputs : Type := { query : string }.

Record EnsembleOperatorOutputs : Type := { responses : list string }.

(** What happens during a run, in order: the rendering of the prompt, the
    call of the module at a position, and the return (or exception) of
    that call. *)
Inductive Event : Type :=
| EvRender (inputs : EnsembleOperatorInputs)
| EvCall (position : nat) (prompt : string)
| EvReturn (position : nat) (outcome : result string).

Section Operator.
(** Whatever the language-model modules act on. *)
Variable World : Type.

(** An [LMModule] is called with a prompt and returns text or raises. *)
Definition LMModule : Type := string -> World -> result string * World.

(** Modelled from the spec: [Specification.render_prompt] is not among
    the sources; section 6: a pure function from the inputs to text. *)
Variable render_prompt : EnsembleOperatorInputs -> string.

Record EnsembleOperator : Type := { lm_modules : list LMModule }.

Record State : Type := {
  world : World;
  trace : list Event
}.

Definition emit (ev : Event) : M State unit :=
  modify (fun st => {| world := world st; trace := trace st ++ [ev] |}).

(** [self.specification.render_prompt(inputs=inputs)] *)
Definition render (inputs : EnsembleOperatorInputs) : M State string :=
  emit (EvRender inputs);;
  ret (render_prompt inputs).

(** [lm(prompt=rendered_prompt)] for the module at [position]. *)
Definition call (position : nat) (lm : LMModule) (rendered_prompt : string)
  : M State string :=
  emit (EvCall position rendered_prompt);;
  let* response :=
    try_except
      (fun st => let (r, w) := lm rendered_prompt (world st) in
                 (r, {| world := w; trace := trace st |}))
      (fun exc => emit (EvReturn position (Raise exc));; raise exc) in
  emit (EvReturn position (Ok response));;
  ret response.

(** [[lm(prompt=rendered_prompt) for lm in lms]], the first module being
    at [position]. *)
Fixpoint comprehension (position : nat) (lms : list LMModule)
    (rendered_prompt : string) : M State (list string) :=
  match lms with
  | [] => ret []
  | lm :: lms' =>
      let* response := call position lm rendered_prompt in
      let* responses := comprehension (S position) lms' rendered_prompt in
      ret (response :: responses)
  end.

Definition forward (self : EnsembleOperator)
    (inputs : EnsembleOperatorInputs) : M State EnsembleOperatorOutputs :=
  let* rendered_prompt := render inputs in
  let* responses := comprehension 0 (lm_modules self) rendered_prompt in
  ret {| responses := responses |}.

End Operator.

Arguments lm_modules {World} _.
Arguments Build_EnsembleOperator {World} _.
Arguments world {World} _.
Arguments trace {World} _.
Arguments Build_State {World} _ _.

End Ensemble.

(** ** Scenarios: concrete collaborators on which the embedding runs *)

Module Scenario.
Import HuggingFace.

(** A backend whose inference endpoint answers [503] to its first
    [failures] calls and a fixed text afterwards.  The world counts the
    calls made to the endpoint; the tokenizer yields one token per
    character and rejects anything that is not a string; the catalogue
    knows every model but ["unknown/model"]. *)
Definition flaky (failures : nat) : Backend := {|
  World := nat;
  Tokenizer := unit;
  Model := unit;
  Pipeline := unit;
  HfApi_model_info := fun model_name w =>
    if String.eqb model_name "unknown/model"
    then (Raise (Raised "RepositoryNotFoundError" "404 Client Error"), w)
    else (Ok tt, w);
  AutoTokenizer_from_pretrained := fun _ w => (Ok tt, w);
  tokenizer_encode := fun _ text w =>
    match text with
    | VStr s => (Ok (map (fun c => Z.of_N (N_of_ascii c))
                         (list_ascii_of_string s)), w)
    | _ => (Raise (TypeError "text input must be of type str"), w)
    end;
  AutoModelForCausalLM_from_pretrained := fun _ w => (Ok tt, w);
  pipeline := fun _ _ w => (Ok tt, w);
  pipeline_call := fun _ prompt _ w =>
    (Ok (PList [VDict {[ "generated_text" := prompt ]}]), w);
  client_text_generation := fun _ _ _ w =>
    if (w <? failures)%nat
    then (Raise (HTTPError (Some 503)
                   "503 Server Error: Service Unavailable"), S w)
    else (Ok "Because networks fail.", S w);
  text_generation_name :=
    "huggingface_hub.inference._client.InferenceClient.text_generation";
  build_prompt := fun context prompt =>
    match context with
    | None | Some EmptyString => prompt
    | Some context => context +:+ String "010" (String "010" prompt)
    end
|}.

(** The same backend with no tokenizer to download. *)
Definition offline : Backend := {|
  World := nat;
  Tokenizer := unit;
  Model := unit;
  Pipeline := unit;
  HfApi_model_info := @HfApi_model_info (flaky 0);
  AutoTokenizer_from_pretrained := fun _ w =>
    (Raise (Raised "OSError" "Can't load tokenizer"), w);
  tokenizer_encode := @tokenizer_encode (flaky 0);
  AutoModelForCausalLM_from_pretrained :=
    @AutoModelForCausalLM_from_pretrained (flaky 0);
  pipeline := @pipeline (flaky 0);
  pipeline_call := @pipeline_call (flaky 0);
  client_text_generation := @client_text_generation (flaky 0);
  text_generation_name := @text_generation_name (flaky 0);
  build_prompt := @build_prompt (flaky 0)
|}.

Definition mistral : ModelInfo := {|
  name := "huggingface:mistralai/Mistral-7B-Instruct-v0.2";
  cost := {| input_cost_per_thousand := 0.001;
             output_cost_per_thousand := 0.002 |}
|}.

(** A freshly constructed adapter: no tokenizer, no local model. *)
Definition fresh (failures : nat) : @State (flaky failures) :=
  @Build_State (flaky failures) mistral None None 0%nat [] [].

Definition disconnected : @State offline :=
  @Build_State offline mistral None None 0%nat [] [].

(** The raw output of the specification's end-to-end scenario. *)
Definition because : RawOutput := {|
  generated_text := "Because networks fail.";
  model := "mistralai/Mistral-7B-Instruct-v0.2";
  usage := Some {| usage_prompt_tokens := Some 3;
                   usage_completion_tokens := Some 4 |}
|}.

(** A raw output whose prompt count is beyond the binary64 range. *)
Definition astronomical : RawOutput := {|
  generated_text := "";
  model := "mistralai/Mistral-7B-Instruct-v0.2";
  usage := Some {| usage_prompt_tokens := Some (2 ^ 1024);
                   usage_completion_tokens := Some 0 |}
|}.

Definition request (prompt : option string) (max_tokens : option Z)
    (timeout : value) (provider_params : gmap string value) : ChatRequest := {|
  HuggingFace.prompt := prompt;
  context := None;
  temperature := VFloat 0.7;
  HuggingFace.max_tokens := max_tokens;
  HuggingFace.timeout := timeout;
  HuggingFace.provider_params := provider_params
|}.

(** Three modules that answer ["A"], ["B"] and ["C"] and count, in the
    world, the calls made so far. *)
Definition constant_lm (answer : string) : Ensemble.LMModule nat :=
  fun _ w => (Ok answer, S w).

Definition failing_lm : Ensemble.LMModule nat :=
  fun _ w => (Raise (Raised "ProviderAPIError" "API error"), S w).

Definition abc : Ensemble.EnsembleOperator nat :=
  Ensemble.Build_EnsembleOperator
    [constant_lm "A"; constant_lm "B"; constant_lm "C"].

Definition idle : Ensemble.State nat := Ensemble.Build_State 0%nat [].

End Scenario.

(** * Properties *)

(** ** Built-ins *)

Module BuiltinsFacts.

(** The number of words of a text: the positions where a character that
    is not whitespace starts the text or follows whitespace. *)
Fixpoint count_words_from (in_word : bool) (s : string) : nat :=
  match s with
  | EmptyString => 0
  | String c s' =>
      if isspace c then count_words_from false s'
      else ((if in_word then 0 else 1) + count_words_from true s')%nat
  end.

Definition count_words (s : string) : nat := count_words_from false s.

Lemma append_char_not_empty word c :
  word +:+ String c EmptyString <> EmptyString.
Proof. destruct word; discriminate. Qed.

Lemma split_from_length s : forall word,
  length (split_from word s)
  = match word with
    | EmptyString => count_words_from false s
    | _ => S (count_words_from true s)
    end.
Proof.
  induction s as [|c s IH]; intros word; simpl.
  - destruct word; reflexivity.
  - destruct (isspace c).
    + destruct word; simpl; rewrite IH; reflexivity.
    + rewrite IH.
      destruct (word +:+ String c EmptyString) eqn:Happ.
      * now apply append_char_not_empty in Happ.
      * destruct word; reflexivity.
Qed.

(** [len(text.split())] is the number of whitespace-delimited words. *)
Lemma split_length s : length (split s) = count_words s.
Proof. unfold split, count_words. now rewrite split_from_length. Qed.

Lemma substring_full s : String.substring 0 (String.length s) s = s.
Proof. induction s as [|c s IH]; simpl; [reflexivity|now rewrite IH]. Qed.

Lemma strip_prefix_of_prefixed rest :
  startswith "huggingface:" ("huggingface:" +:+ rest) = true
  /\ slice_from 12 ("huggingface:" +:+ rest) = rest.
Proof.
  split.
  - unfold startswith. simpl. destruct rest; reflexivity.
  - unfold slice_from. simpl. rewrite Nat.sub_0_r. apply substring_full.
Qed.

(** At the limit the rounding itself leaves the binary64 range: the largest
    integer below it rounds to the largest float, the limit to infinity. *)
Example float_limit_is_the_rounding_boundary :
  binary_normalize prec emax (float_limit - 1) 0 false
  = S754_finite false (2 ^ 53 - 1) 971
  /\ binary_normalize prec emax float_limit 0 false = S754_infinity false
  /\ binary_normalize prec emax (- float_limit) 0 false = S754_infinity true.
Proof. repeat split; vm_compute; reflexivity. Qed.

Lemma int_to_float_in_range z :
  Z.abs z < float_limit -> int_to_float z = Ok (float_of_int z).
Proof.
  intros Hz. unfold int_to_float.
  destruct (Z.ltb_spec (Z.abs z) float_limit); [reflexivity|lia].
Qed.

Lemma int_to_float_out_of_range z :
  float_limit <= Z.abs z ->
  int_to_float z = Raise (OverflowError "int too large to convert to float").
Proof.
  intros Hz. unfold int_to_float.
  destruct (Z.ltb_spec (Z.abs z) float_limit); [lia|reflexivity].
Qed.

(** [round] on the values of Python's documentation and of the
    specification's scenario. *)
Example float_round_examples :
  float_round 2.675 2 = 2.67%float
  /\ float_round 0.5 0 = 0%float
  /\ float_round 1.5 0 = 2%float
  /\ float_round 2.5 0 = 2%float
  /\ float_round (3 / 1000 * 0.001 + 4 / 1000 * 0.002) 6 = 0.000011%float.
Proof. repeat split; vm_compute; reflexivity. Qed.

End BuiltinsFacts.

(** ** The ensemble operator *)

Module EnsembleFacts.
Import Ensemble.

(** The events of modules called one after the other from [position] on,
    each call being followed by its own return. *)
Fixpoint sequential_calls (position : nat) (rendered_prompt : string)
    (outcomes : list (result string)) : list Event :=
  match outcomes with
  | [] => []
  | o :: os =>
      EvCall position rendered_prompt :: EvReturn position o
        :: sequential_calls (S position) rendered_prompt os
  end.

(** Number of renderings in a trace. *)
Definition is_render (ev : Event) : bool :=
  match ev with EvRender _ => true | _ => false end.

Definition renderings (tr : list Event) : nat :=
  length (List.filter is_render tr).

(** The largest number of calls in flight at one time along a trace, [open]
    calls being in flight when it starts. *)
Fixpoint peak_in_flight (open : nat) (tr : list Event) : nat :=
  match tr with
  | [] => open
  | EvCall _ _ :: tr' => peak_in_flight (S open) tr'
  | EvReturn _ _ :: tr' => Nat.max open (peak_in_flight (Nat.pred open) tr')
  | EvRender _ :: tr' => peak_in_flight open tr'
  end.

Section Facts.
Variable World : Type.
Variable render_prompt : EnsembleOperatorInputs -> string.

(** [answered p lms w rs w']: from the world [w], the modules [lms] called
    in order with [p] return [rs], position by position, and leave [w']. *)
Inductive answered (p : string)
  : list (LMModule World) -> World -> list string -> World -> Prop :=
| answered_nil w : answered p [] w [] w
| answered_cons lm lms w r w' rs w'' :
    lm p w = (Ok r, w') ->
    answered p lms w' rs w'' ->
    answered p (lm :: lms) w (r :: rs) w''.

Lemma answered_length p lms w rs w' :
  answered p lms w rs w' -> length rs = length lms.
Proof. induction 1; simpl; congruence. Qed.

Lemma answered_lookup p lms w rs w' :
  answered p lms w rs w' ->
  forall i lm, lms !! i = Some lm ->
    exists wi wi' r, lm p wi = (Ok r, wi') /\ rs !! i = Some r.
Proof.
  induction 1 as [|lm0 lms w r w' rs w'' Hlm _ IH]; intros i lm Hi.
  - discriminate.
  - destruct i as [|i]; simpl in Hi.
    + inversion Hi; subst. exists w, w', r. split; [assumption|reflexivity].
    + apply (IH i lm Hi).
Qed.

Ltac run_call :=
  unfold call, render, emit, bind, try_except, modify, ret, raise; simpl.

Lemma comprehension_ok lms : forall position p st rs st',
  comprehension World position lms p st = (Ok rs, st') ->
  answered p lms (world st) rs (world st')
  /\ trace st' = (trace st ++ sequential_calls position p (map Ok rs))%list.
Proof.
  induction lms as [|lm lms IH]; intros position p st rs st' Hrun.
  - inversion Hrun; subst. split; [constructor|].
    simpl. now rewrite app_nil_r.
  - simpl in Hrun. revert Hrun. run_call.
    destruct (lm p (world st)) as [[r|e] w] eqn:Hlm; simpl; [|discriminate].
    match goal with
    | |- context [comprehension World ?i lms p ?s] =>
        destruct (comprehension World i lms p s) as [[rs'|e] st1] eqn:Hrest
    end; [|discriminate].
    intros Heq; inversion Heq; subst.
    apply IH in Hrest as [Hans Htr]. simpl in Hans, Htr. split.
    + econstructor; eassumption.
    + rewrite Htr. simpl. rewrite <- !app_assoc. reflexivity.
Qed.

Lemma comprehension_returns lms : forall position p st,
  Forall (fun lm => forall w, is_ok (fst (lm p w)) = true) lms ->
  exists rs st', comprehension World position lms p st = (Ok rs, st').
Proof.
  induction lms as [|lm lms IH]; intros position p st Hall.
  - eexists _, _. reflexivity.
  - inversion Hall as [|? ? Hlm Hrest]; subst.
    simpl. run_call. specialize (Hlm (world st)).
    destruct (lm p (world st)) as [[r|e] w]; simpl in Hlm; [|discriminate].
    simpl.
    match goal with
    | |- context [comprehension World ?i lms p ?s] =>
        destruct (IH i p s Hrest) as (rs & st1 & Hrun)
    end.
    rewrite Hrun. eexists _, _. reflexivity.
Qed.

(** The outcomes of a run that were observed: those of all the modules
    when it returns, and those of the modules up to the first that raised
    when it raises. *)
Definition outcomes_of (n : nat) (r : result (list string))
    (outcomes : list (result string)) : Prop :=
  match r with
  | Ok rs => outcomes = map Ok rs /\ length rs = n
  | Raise e =>
      exists rs, outcomes = (map Ok rs ++ [Raise e])%list /\ (length rs < n)%nat
  end.

(** Whatever the modules do, the calls of a run are made one after the
    other, in construction order, and stop at the first one that
    raises. *)
Lemma comprehension_trace lms : forall position p st,
  exists outcomes,
    trace (snd (comprehension World position lms p st))
    = (trace st ++ sequential_calls position p outcomes)%list
    /\ outcomes_of (length lms)
                   (fst (comprehension World position lms p st)) outcomes.
Proof.
  induction lms as [|lm lms IH]; intros position p st.
  - exists []. simpl. rewrite app_nil_r. repeat split.
  - simpl. run_call.
    destruct (lm p (world st)) as [[r|e] w] eqn:Hlm; simpl.
    + match goal with
      | |- context [comprehension World ?i lms p ?s] =>
          destruct (IH i p s) as (os & Htr & Hos);
          destruct (comprehension World i lms p s) as [[rs'|e] st1]
      end; simpl in *; exists (Ok r :: os); rewrite Htr; simpl;
        rewrite <- !app_assoc; (split; [reflexivity|]).
      * destruct Hos as [-> Hlen]. split; [reflexivity|simpl; lia].
      * destruct Hos as (rs & -> & Hlen). exists (r :: rs).
        split; [reflexivity|simpl; lia].
    + exists [Raise e]. simpl. rewrite <- !app_assoc.
      split; [reflexivity|]. exists []. split; [reflexivity|simpl; lia].
Qed.

Lemma renderings_app tr1 tr2 :
  renderings (tr1 ++ tr2) = (renderings tr1 + renderings tr2)%nat.
Proof. unfold renderings. now rewrite List.filter_app, length_app. Qed.

Lemma renderings_sequential_calls os : forall position p,
  renderings (sequential_calls position p os) = 0%nat.
Proof.
  induction os as [|o os IH]; intros position p; [reflexivity|].
  apply (IH (S position) p).
Qed.

Lemma peak_sequential_calls os : forall position p,
  (peak_in_flight 0 (sequential_calls position p os) <= 1)%nat.
Proof.
  induction os as [|o os IH]; intros position p; simpl; [lia|].
  specialize (IH (S position) p). lia.
Qed.

(** C1.  For an ensemble over N modules and any inputs: a run that
    returns has rendered the prompt exactly once, before any call; its
    [responses] has length N; [responses[i]] is what the i-th module (in
    construction order) returned for that one rendered prompt, the calls
    being chained through the world in that order; and every module was
    called exactly once with it.  The run does return when every module
    answers the rendered prompt. *)
Theorem forward_responses_in_construction_order
    (self : EnsembleOperator World) (inputs : EnsembleOperatorInputs)
    (st : State World) :
  let p := render_prompt inputs in
  (forall out st',
      forward World render_prompt self inputs st = (Ok out, st') ->
      renderings (trace st') = S (renderings (trace st))
      /\ trace st'
         = (trace st ++ EvRender inputs
              :: sequential_calls 0 p (map Ok (responses out)))%list
      /\ length (responses out) = length (lm_modules self)
      /\ answered p (lm_modules self) (world st) (responses out) (world st')
      /\ forall i lm, lm_modules self !! i = Some lm ->
           exists w w' r, lm p w = (Ok r, w') /\ responses out !! i = Some r)
  /\ (Forall (fun lm => forall w, is_ok (fst (lm p w)) = true)
             (lm_modules self) ->
      exists out st',
        forward World render_prompt self inputs st = (Ok out, st')).
Proof.
  intros p. split.
  - intros out st' Hrun. unfold forward in Hrun. revert Hrun.
    unfold render, emit, bind, modify, ret. simpl. fold p.
    match goal with
    | |- context [comprehension World 0 ?l p ?s] =>
        destruct (comprehension World 0 l p s) as [[rs|e] st1] eqn:Hc
    end; [|discriminate].
    intros Heq; inversion Heq; subst. simpl.
    apply comprehension_ok in Hc as [Hans Htr]. simpl in Hans, Htr.
    assert (Htrace : trace st'
                     = (trace st ++ EvRender inputs
                          :: sequential_calls 0 p (map Ok rs))%list).
    { rewrite Htr, <- app_assoc. reflexivity. }
    split; [|split; [exact Htrace|split; [|split]]].
    + rewrite Htrace, renderings_app.
      change (EvRender inputs :: sequential_calls 0 p (map Ok rs))
        with ([EvRender inputs] ++ sequential_calls 0 p (map Ok rs))%list.
      rewrite renderings_app, renderings_sequential_calls.
      unfold renderings at 2. simpl. lia.
    + eapply answered_length; eassumption.
    + assumption.
    + eapply answered_lookup; eassumption.
  - intros Hall. unfold forward, render, emit, bind, modify, ret. simpl.
    fold p.
    match goal with
    | |- context [comprehension World 0 ?l p ?s] =>
        destruct (comprehension_returns l 0%nat p s Hall) as (rs & st1 & Hc)
    end.
    rewrite Hc. eexists _, _. reflexivity.
Qed.

(** C7 (amended).  A run of [forward] calls the modules one after the
    other in construction order, each call being made only after the
    previous one has returned, and calls none after one that raises: after
    the rendering, the events are a call and its return for the positions
    0, 1, ... up to the last module or to the first that raises, so that
    no two calls are ever in flight together. *)
Theorem forward_calls_one_at_a_time
    (self : EnsembleOperator World) (inputs : EnsembleOperatorInputs)
    (st : State World) :
  let run := forward World render_prompt self inputs st in
  exists outcomes,
    trace (snd run)
    = (trace st ++ EvRender inputs
         :: sequential_calls 0 (render_prompt inputs) outcomes)%list
    /\ match fst run with
       | Ok out =>
           outcomes = map Ok (responses out)
           /\ length (responses out) = length (lm_modules self)
       | Raise e =>
           exists rs,
             outcomes = (map Ok rs ++ [Raise e])%list
             /\ (length rs < length (lm_modules self))%nat
       end
    /\ (peak_in_flight 0
          (EvRender inputs
             :: sequential_calls 0 (render_prompt inputs) outcomes)
        <= 1)%nat.
Proof.
  unfold forward, render, emit, bind, modify, ret. simpl.
  match goal with
  | |- context [comprehension World 0 ?l ?p ?s] =>
      destruct (comprehension_trace l 0%nat p s) as (os & Htr & Hos);
      destruct (comprehension World 0 l p s) as [[rs|e] st1]
  end; simpl in *; exists os; rewrite Htr, <- app_assoc;
    (split; [reflexivity|split; [exact Hos|apply peak_sequential_calls]]).
Qed.

End Facts.

(** The ensemble of the specification's scenario: three modules answering
    ["A"], ["B"], ["C"] give [responses = ["A"; "B"; "C"]]. *)
Example abc_run :
  fst (forward nat query Scenario.abc {| query := "q" |} Scenario.idle)
  = Ok {| responses := ["A"; "B"; "C"] |}.
Proof. reflexivity. Qed.

Lemma forward_responses_in_construction_order_witness :
  let run := forward nat query Scenario.abc {| query := "q" |} Scenario.idle in
  Forall (fun lm : LMModule nat => forall w, is_ok (fst (lm "q" w)) = true)
         (lm_modules Scenario.abc)
  /\ (exists out st', run = (Ok out, st'))
  /\ renderings (trace (snd run)) = 1%nat
  /\ length (responses {| responses := ["A"; "B"; "C"] |}) = 3%nat.
Proof.
  intros run.
  assert (Hall : Forall
                   (fun lm : LMModule nat =>
                      forall w, is_ok (fst (lm "q" w)) = true)
                   (lm_modules Scenario.abc)).
  { repeat constructor. }
  pose proof (forward_responses_in_construction_order nat query Scenario.abc
                {| query := "q" |} Scenario.idle) as [Hok Hret].
  split; [exact Hall|]. split; [exact (Hret Hall)|].
  destruct (Hok {| responses := ["A"; "B"; "C"] |} (snd run) eq_refl)
    as (Hrender & _ & Hlen & _).
  split; [exact Hrender|exact Hlen].
Defined.

(** When the second of three modules raises, the run raises what it
    raised and the third module is never called. *)
Example failing_module_stops_the_run :
  let run := forward nat query
               (Build_EnsembleOperator
                  [Scenario.constant_lm "A"; Scenario.failing_lm;
                   Scenario.constant_lm "C"])
               {| query := "q" |} Scenario.idle in
  fst run = Raise (Raised "ProviderAPIError" "API error")
  /\ trace (snd run)
     = [EvRender {| query := "q" |};
        EvCall 0 "q"; EvReturn 0 (Ok "A");
        EvCall 1 "q"; EvReturn 1 (Raise (Raised "ProviderAPIError" "API error"))]
  /\ world (snd run) = 2%nat.
Proof. repeat split. Qed.

(** C7, as stated, fails: on the three-module ensemble no two calls are in
    flight at any time of the run. *)
Lemma abc_calls_are_not_concurrent :
  ~ (2 <= peak_in_flight 0
            (trace (snd (forward nat query Scenario.abc {| query := "q" |}
                                 Scenario.idle))))%nat.
Proof. vm_compute. lia. Qed.

End EnsembleFacts.

(** ** The retry decorator *)

Module TenacityFacts.
Import Tenacity.

(** The waits of [wait_exponential(min=1, max=10)]: 1, 2, 4, 8, 10, 10, ... *)
Lemma wait_exponential_schedule (n : Z) :
  1 <= n ->
  wait_exponential 1 10 2 1 n = Z.min (2 ^ (n - 1)) 10
  /\ 1 <= wait_exponential 1 10 2 1 n <= 10
  /\ wait_exponential 1 10 2 1 n <= wait_exponential 1 10 2 1 (n + 1).
Proof.
  intros Hn. unfold wait_exponential.
  assert (H1 : 0 < 2 ^ (n - 1)) by (apply Z.pow_pos_nonneg; lia).
  assert (H2 : 2 ^ (n - 1) <= 2 ^ (n + 1 - 1))
    by (apply Z.pow_le_mono_r; lia).
  lia.
Qed.

Section Retry.
Context {St A : Type}.
Variable wait : Z -> Z.
Variable sleep : Z -> St -> St.
Variable fn : M St A.

(** Three attempts at most: the second is made after the wait that
    follows attempt 1, the third after the wait that follows attempt 2,
    and what the third does is the outcome. *)
Lemma retry_three (st : St) :
  retry wait sleep fn (stop_after_attempt 3) st
  = match fn st with
    | (Ok a, s1) => (Ok a, s1)
    | (Raise e1, s1) =>
        match fn (sleep (wait 1) s1) with
        | (Ok a, s2) => (Ok a, s2)
        | (Raise e2, s2) => fn (sleep (wait 2) s2)
        end
    end.
Proof.
  unfold retry. simpl.
  destruct (fn st) as [[a|e1] s1]; [reflexivity|].
  destruct (fn (sleep (wait 1) s1)) as [[a|e2] s2]; [reflexivity|].
  change (1 + 1) with 2.
  destruct (fn (sleep (wait 2) s2)) as [[a|e3] s3]; reflexivity.
Qed.
End Retry.

End TenacityFacts.

(** ** The Hugging Face adapter *)

Module HuggingFaceFacts.
Import HuggingFace BuiltinsFacts TenacityFacts.

Ltac run :=
  unfold extern, logger, bind, try_except, modify, ret, raise, get, lift;
  simpl.

Section Facts.
Context `{Backend}.

(** *** Model-name resolution *)

Definition fallback_warning (stripped : string) (exc : exn) : LogRecord :=
  {| level := WARNING;
     msg := "HuggingFace model '%s' not found on Hub. Falling back to '%s': %s";
     args := [stripped; default_model; exn_str exc] |}.

Lemma normalize_name_run (raw_name : string) (st : State) :
  let stripped := strip_provider_prefix raw_name in
  _normalize_huggingface_model_name raw_name st
  = match HfApi_model_info stripped (world st) with
    | (Ok _, w) =>
        (Ok stripped, set_world w (add_event (EvModelInfo stripped) st))
    | (Raise exc, w) =>
        (Ok default_model,
         add_log (fallback_warning stripped exc)
                 (set_world w (add_event (EvModelInfo stripped) st)))
    end.
Proof.
  intros stripped. unfold _normalize_huggingface_model_name. fold stripped.
  run. destruct (HfApi_model_info stripped (world st)) as [[[]|exc] w];
    reflexivity.
Qed.

(** C9.  Model-name normalisation strips a leading ["huggingface:"],
    queries the catalogue with the stripped name, returns that name when
    the lookup succeeds and, when the lookup raises, whatever it raises,
    returns the fixed default ["mistralai/Mistral-7B-Instruct-v0.2"] after
    logging one warning; in both cases it returns and never raises. *)
Theorem normalize_model_name_falls_back (raw_name : string) (st : State) :
  let stripped := strip_provider_prefix raw_name in
  (forall rest, raw_name = "huggingface:" +:+ rest -> stripped = rest)
  /\ (startswith "huggingface:" raw_name = false -> stripped = raw_name)
  /\ default_model = "mistralai/Mistral-7B-Instruct-v0.2"
  /\ (exists r st',
         _normalize_huggingface_model_name raw_name st = (Ok r, st')
         /\ trace st' = (trace st ++ [EvModelInfo stripped])%list)
  /\ match HfApi_model_info stripped (world st) with
     | (Ok _, w) =>
         _normalize_huggingface_model_name raw_name st
         = (Ok stripped, set_world w (add_event (EvModelInfo stripped) st))
     | (Raise exc, w) =>
         _normalize_huggingface_model_name raw_name st
         = (Ok default_model,
            add_log (fallback_warning stripped exc)
                    (set_world w (add_event (EvModelInfo stripped) st)))
     end.
Proof.
  intros stripped. pose proof (normalize_name_run raw_name st) as Hrun.
  fold stripped in Hrun. simpl in Hrun.
  split; [|split; [|split; [reflexivity|split]]].
  - intros rest ->. unfold stripped, strip_provider_prefix.
    destruct (strip_prefix_of_prefixed rest) as [-> ->]. reflexivity.
  - intros Hno. unfold stripped, strip_provider_prefix. now rewrite Hno.
  - rewrite Hrun.
    destruct (HfApi_model_info stripped (world st)) as [[[]|exc] w];
      eexists _, _; (split; [reflexivity|reflexivity]).
  - rewrite Hrun.
    destruct (HfApi_model_info stripped (world st)) as [[[]|exc] w];
      reflexivity.
Qed.

(** *** Token counting *)

Definition count_warning (exc : exn) : LogRecord :=
  {| level := WARNING;
     msg := "Failed to count tokens, estimating based on words: %s";
     args := [exn_str exc] |}.

(** A count returned by the tokenizer path is the length of a token list
    that [encode] returned for the text. *)
Lemma count_with_tokenizer_ok (text : value) (st : State) k st' :
  count_with_tokenizer text st = (Ok k, st') ->
  exists tk tokens w w',
    tokenizer_encode tk text w = (Ok tokens, w')
    /\ tokenizer st' = Some tk
    /\ k = Z.of_nat (length tokens).
Proof.
  unfold count_with_tokenizer. run.
  destruct (tokenizer st) as [tk|] eqn:Htk.
  - destruct (tokenizer_encode tk text (world st)) as [[tokens|e] w'] eqn:He;
      intros Heq; inversion Heq; subst.
    exists tk, tokens, (world st), w'. simpl. auto.
  - rewrite (normalize_name_run (name (model_info st)) st). simpl.
    set (stripped := strip_provider_prefix (name (model_info st))).
    destruct (HfApi_model_info stripped (world st)) as [[[]|exc] w]; simpl;
      match goal with
      | |- context [AutoTokenizer_from_pretrained ?m ?w0] =>
          destruct (AutoTokenizer_from_pretrained m w0) as [[tk|e] w1]
      end; simpl; try discriminate;
      match goal with
      | |- context [tokenizer_encode ?t text ?w0] =>
          destruct (tokenizer_encode t text w0) as [[tokens|e] w2] eqn:He;
          intros Heq; inversion Heq; subst;
          exists t, tokens, w0, w2; simpl; auto
      end.
Qed.

(** The encoding of [text] with the tokenizer [tk], and the count it
    gives. *)
Definition encode_with (tk : Tokenizer) (text : value) (st : State)
  : result Z * State :=
  match tokenizer_encode tk text (world st) with
  | (Ok tokens, w) =>
      (Ok (Z.of_nat (length tokens)),
       set_world w (add_event (EvEncode text) st))
  | (Raise exc, w) => (Raise exc, set_world w (add_event (EvEncode text) st))
  end.

(** The tokenizer path, step by step: the tokenizer held is used; when
    none is held, the model name is resolved and its tokenizer loaded and
    kept. *)
Lemma count_with_tokenizer_run (text : value) (st : State) :
  count_with_tokenizer text st
  = match tokenizer st with
    | Some tk => encode_with tk text st
    | None =>
        match _normalize_huggingface_model_name (name (model_info st)) st with
        | (Ok model_id, s1) =>
            match AutoTokenizer_from_pretrained model_id (world s1) with
            | (Ok tk, w) =>
                encode_with tk text
                  (set_tokenizer (Some tk)
                     (set_world w (add_event (EvTokenizerLoad model_id) s1)))
            | (Raise exc, w) =>
                (Raise exc,
                 set_world w (add_event (EvTokenizerLoad model_id) s1))
            end
        | (Raise exc, s1) => (Raise exc, s1)
        end
    end.
Proof.
  unfold count_with_tokenizer, encode_with. run.
  destruct (tokenizer st) as [tk|].
  - destruct (tokenizer_encode tk text (world st)) as [[tokens|exc] w];
      reflexivity.
  - destruct (_normalize_huggingface_model_name (name (model_info st)) st)
      as [[model_id|exc] s1]; [|reflexivity].
    destruct (AutoTokenizer_from_pretrained model_id (world s1))
      as [[tk|exc] w]; [|reflexivity].
    simpl.
    destruct (tokenizer_encode tk text w) as [[tokens|exc] w2]; reflexivity.
Qed.

(** C6.  For every text, the empty one included, [_count_tokens] returns
    and never raises, and the count is not negative.  It is the number of
    tokens that the adapter's tokenizer (the one it holds or, when it holds
    none, the one it loads for the resolved model name) gives for the text
    when that tokenizer is obtained and encodes the text, nothing being
    logged for the count; and it is the number of whitespace-delimited
    words, after one warning that carries the failure, when loading the
    tokenizer or encoding raises. *)
Theorem count_tokens_never_raises (text : string) (st : State) :
  let words := Z.of_nat (length (split text)) in
  exists n st',
    _count_tokens (VStr text) st = (Ok n, st')
    /\ 0 <= n
    /\ words = Z.of_nat (count_words text)
    /\ (forall tk, tokenizer st = Some tk ->
          match tokenizer_encode tk (VStr text) (world st) with
          | (Ok tokens, _) =>
              n = Z.of_nat (length tokens) /\ log st' = log st
          | (Raise exc, _) =>
              n = words /\ log st' = (log st ++ [count_warning exc])%list
          end)
    /\ (tokenizer st = None ->
        match _normalize_huggingface_model_name (name (model_info st)) st with
        | (Raise _, _) => False
        | (Ok model_id, s1) =>
            match AutoTokenizer_from_pretrained model_id (world s1) with
            | (Raise exc, _) =>
                n = words /\ log st' = (log s1 ++ [count_warning exc])%list
            | (Ok tk, w) =>
                match tokenizer_encode tk (VStr text) w with
                | (Ok tokens, _) =>
                    n = Z.of_nat (length tokens) /\ log st' = log s1
                    /\ tokenizer st' = Some tk
                | (Raise exc, _) =>
                    n = words
                    /\ log st' = (log s1 ++ [count_warning exc])%list
                end
            end
        end).
Proof.
  intros words.
  assert (Hwords : words = Z.of_nat (count_words text))
    by (unfold words; now rewrite split_length).
  unfold _count_tokens, try_except. rewrite count_with_tokenizer_run.
  destruct (tokenizer st) as [tk0|] eqn:Htk.
  - unfold encode_with.
    destruct (tokenizer_encode tk0 (VStr text) (world st))
      as [[tokens|exc] w] eqn:He; run;
      (eexists _, _; split; [reflexivity|]; split; [lia|];
       split; [exact Hwords|]; split; [|discriminate];
       intros tk Heq; inversion Heq; subst tk; rewrite He; auto).
  - destruct (_normalize_huggingface_model_name (name (model_info st)) st)
      as [[model_id|e0] s1] eqn:Hn.
    2:{ exfalso. rewrite normalize_name_run in Hn.
        destruct (HfApi_model_info _ (world st)) as [[[]|exc] w];
          discriminate Hn. }
    destruct (AutoTokenizer_from_pretrained model_id (world s1))
      as [[tk|exc] w] eqn:Hl.
    + unfold encode_with. simpl world.
      destruct (tokenizer_encode tk (VStr text) w)
        as [[tokens|exc] w2] eqn:He; run;
        (eexists _, _; split; [reflexivity|]; split; [lia|];
         split; [exact Hwords|]; split; [discriminate|]; intros _; auto).
    + run. eexists _, _. split; [reflexivity|]. split; [lia|].
      split; [exact Hwords|]. split; [discriminate|]. intros _. auto.
Qed.

(** *** Usage and cost *)

(** The count read from the raw output: 0 when ["usage"] or the key is
    absent. *)
Definition read_prompt_tokens (raw_output : RawOutput) : Z :=
  match usage raw_output with
  | Some u => default 0 (usage_prompt_tokens u)
  | None => 0
  end.

Definition read_completion_tokens (raw_output : RawOutput) : Z :=
  match usage raw_output with
  | Some u => default 0 (usage_completion_tokens u)
  | None => 0
  end.

(** The cost as the specification writes it:
    [round(p/1000 * input_cost + c/1000 * output_cost, 6)], the counts
    being taken as floats. *)
Definition spec_cost_usd (p c : Z) (schedule : ModelCost) : float :=
  float_round (float_of_int p / 1000 * input_cost_per_thousand schedule
               + float_of_int c / 1000 * output_cost_per_thousand schedule) 6.

(** C3 (amended).  For every raw output whose two token counts (each read
    from [raw_output.usage], 0 when absent) are within the range of a
    float, [calculate_usage] returns, as a function of the raw output and
    the cost schedule alone, the usage with those two counts, their sum as
    total and the cost
    [round(p/1000 * input_cost + c/1000 * output_cost, 6)]. *)
Theorem calculate_usage_returns (info : ModelInfo) (raw_output : RawOutput) :
  Z.abs (read_prompt_tokens raw_output) < float_limit ->
  Z.abs (read_completion_tokens raw_output) < float_limit ->
  calculate_usage info raw_output
  = Ok {| total_tokens := read_prompt_tokens raw_output
                          + read_completion_tokens raw_output;
          prompt_tokens := read_prompt_tokens raw_output;
          completion_tokens := read_completion_tokens raw_output;
          cost_usd := spec_cost_usd (read_prompt_tokens raw_output)
                                    (read_completion_tokens raw_output)
                                    (cost info) |}.
Proof.
  intros Hp Hc. apply int_to_float_in_range in Hp, Hc. revert Hp Hc.
  unfold calculate_usage, read_prompt_tokens, read_completion_tokens,
    spec_cost_usd.
  destruct (usage raw_output) as [u|];
    cbn [default from_option id usage_prompt_tokens usage_completion_tokens];
    intros Hp Hc; rewrite Hp; try rewrite Hc; reflexivity.
Qed.

(** A count at or beyond the limit makes [calculate_usage] raise. *)
Lemma calculate_usage_overflow (info : ModelInfo) (raw_output : RawOutput) :
  float_limit <= Z.abs (read_prompt_tokens raw_output) ->
  calculate_usage info raw_output
  = Raise (OverflowError "int too large to convert to float").
Proof.
  intros Hp. apply int_to_float_out_of_range in Hp. revert Hp.
  unfold calculate_usage, read_prompt_tokens.
  destruct (usage raw_output) as [u|];
    cbn [default from_option id usage_prompt_tokens usage_completion_tokens];
    intros Hp; rewrite Hp; reflexivity.
Qed.

(** *** Parameter normalisation *)

(** C4.  For a request with a non-empty prompt whose [max_tokens] is
    absent or positive, the parameters validate; their [max_tokens] is the
    requested value, or 512 when none was given, and is positive; the
    keyword arguments carry it under ["max_new_tokens"] (there is no
    ["max_tokens"] key) and carry [temperature] and [timeout] as they
    were given. *)
Theorem normalize_max_tokens (request : ChatRequest) (request_prompt : string) :
  prompt request = Some request_prompt ->
  request_prompt <> EmptyString ->
  (forall n, max_tokens request = Some n -> 0 < n) ->
  exists hf_parameters,
    HuggingFaceChatParameters_init request_prompt (context request)
      (temperature request) (max_tokens request) (timeout request)
    = Ok hf_parameters
    /\ p_max_tokens hf_parameters
       = match max_tokens request with Some n => n | None => 512 end
    /\ 0 < p_max_tokens hf_parameters
    /\ to_huggingface_kwargs hf_parameters !! "max_new_tokens"
       = Some (VInt (p_max_tokens hf_parameters))
    /\ to_huggingface_kwargs hf_parameters !! "max_tokens" = None
    /\ to_huggingface_kwargs hf_parameters !! "temperature"
       = Some (temperature request)
    /\ to_huggingface_kwargs hf_parameters !! "timeout"
       = Some (timeout request).
Proof.
  intros _ _ Hpos.
  unfold HuggingFaceChatParameters_init, ensure_positive,
    enforce_default_if_none.
  destruct (max_tokens request) as [n|] eqn:Hmt.
  - specialize (Hpos n eq_refl).
    destruct (n <=? 0) eqn:Hle; [apply Z.leb_le in Hle; lia|].
    eexists. split; [reflexivity|]. simpl.
    unfold to_huggingface_kwargs. simpl.
    repeat split; try assumption; by simplify_map_eq.
  - simpl. eexists. split; [reflexivity|]. simpl.
    unfold to_huggingface_kwargs. simpl.
    repeat split; try lia; by simplify_map_eq.
Qed.

Lemma lookup_update (d other : gmap string value) (k : string) :
  update d other !! k
  = match other !! k with Some v => Some v | None => d !! k end.
Proof.
  unfold update. rewrite lookup_union.
  destruct (other !! k), (d !! k); reflexivity.
Qed.

Lemma lookup_not_none_items (provider_params : gmap string value) k :
  not_none_items provider_params !! k
  = match provider_params !! k with
    | Some v => if is_none v then None else Some v
    | None => None
    end.
Proof.
  unfold not_none_items. rewrite lookup_omap.
  destruct (provider_params !! k); reflexivity.
Qed.

(** C10.  In the merged keyword arguments, a provider parameter whose
    value is [None] leaves the entry computed from the request as it was
    (and adds none), and one whose value is not [None] replaces it with
    the given value, whatever that value is: no validation is run on
    it. *)
Theorem merge_skips_none_and_overrides (request : ChatRequest)
    (request_prompt : string) (hf_kwargs : gmap string value) :
  merged_kwargs request_prompt request = Ok hf_kwargs ->
  exists hf_parameters,
    HuggingFaceChatParameters_init request_prompt (context request)
      (temperature request) (max_tokens request) (timeout request)
    = Ok hf_parameters
    /\ forall k,
         hf_kwargs !! k
         = match provider_params request !! k with
           | Some v =>
               if is_none v
               then to_huggingface_kwargs hf_parameters !! k
               else Some v
           | None => to_huggingface_kwargs hf_parameters !! k
           end.
Proof.
  unfold merged_kwargs.
  destruct (HuggingFaceChatParameters_init _ _ _ _ _) as [hf_parameters|e];
    [|discriminate].
  intros Heq; inversion Heq; subst. exists hf_parameters.
  split; [reflexivity|]. intros k.
  rewrite lookup_update, lookup_not_none_items.
  destruct (provider_params request !! k) as [v|]; [|reflexivity].
  destruct (is_none v); reflexivity.
Qed.

(** *** The retried [forward] *)

Lemma forward_unfold (request : ChatRequest) (st : State) :
  forward request st
  = match forward_body request st with
    | (Ok r, s1) => (Ok r, s1)
    | (Raise e1, s1) =>
        match forward_body request (sleep 1 s1) with
        | (Ok r, s2) => (Ok r, s2)
        | (Raise e2, s2) => forward_body request (sleep 2 s2)
        end
    end.
Proof. unfold forward. rewrite retry_three. reflexivity. Qed.

(** C5.  [forward] makes at most three attempts of its body, sleeping 1
    time-unit after the first failure and 2 after the second; the waits
    of the policy double from 1 and never exceed 10.  When the body
    fails twice and then succeeds, [forward] returns the third attempt's
    result; when it fails three times, [forward] raises the third
    exception as it is, in the state that attempt left. *)
Theorem forward_retry_policy (request : ChatRequest) (st : State) :
  let wait := Tenacity.wait_exponential 1 10 2 1 in
  (forall n, 1 <= n ->
             wait n = Z.min (2 ^ (n - 1)) 10
             /\ 1 <= wait n <= 10 /\ wait n <= wait (n + 1))
  /\ forward request st
     = match forward_body request st with
       | (Ok r, s1) => (Ok r, s1)
       | (Raise e1, s1) =>
           match forward_body request (sleep (wait 1) s1) with
           | (Ok r, s2) => (Ok r, s2)
           | (Raise e2, s2) =>
               match forward_body request (sleep (wait 2) s2) with
               | (Ok r, s3) => (Ok r, s3)
               | (Raise e3, s3) => (Raise e3, s3)
               end
           end
       end
  /\ (forall e1 s1 e2 s2 r s3,
         forward_body request st = (Raise e1, s1) ->
         forward_body request (sleep 1 s1) = (Raise e2, s2) ->
         forward_body request (sleep 2 s2) = (Ok r, s3) ->
         forward request st = (Ok r, s3))
  /\ (forall e1 s1 e2 s2 e3 s3,
         forward_body request st = (Raise e1, s1) ->
         forward_body request (sleep 1 s1) = (Raise e2, s2) ->
         forward_body request (sleep 2 s2) = (Raise e3, s3) ->
         forward request st = (Raise e3, s3)).
Proof.
  intros wait. split; [exact wait_exponential_schedule|].
  split; [|split].
  - rewrite forward_unfold. change (wait 1) with 1. change (wait 2) with 2.
    destruct (forward_body request st) as [[r|e1] s1]; [reflexivity|].
    destruct (forward_body request (sleep 1 s1)) as [[r|e2] s2];
      [reflexivity|].
    destruct (forward_body request (sleep 2 s2)) as [[r|e3] s3];
      reflexivity.
  - intros e1 s1 e2 s2 r s3 H1 H2 H3.
    rewrite forward_unfold, H1, H2, H3. reflexivity.
  - intros e1 s1 e2 s2 e3 s3 H1 H2 H3.
    rewrite forward_unfold, H1, H2, H3. reflexivity.
Qed.

(** *** Invalid input *)

Definition empty_prompt_error (st : State) : exn :=
  InvalidPromptError "HuggingFace prompt cannot be empty." "HuggingFace"
                     (name (model_info st)).

Definition max_tokens_error (n : Z) : exn :=
  ValidationError ("max_tokens must be a positive integer, got " +:+ pretty n)
                  "HuggingFace".

Definition invoked_record (st : State) (request_prompt : string) : LogRecord :=
  {| level := INFO;
     msg := "HuggingFace forward invoked";
     args := ["HuggingFace"; name (model_info st);
              pretty (String.length request_prompt)] |}.

(** An attempt on an empty or missing prompt raises at once and leaves
    the state as it was. *)
Lemma forward_body_empty_prompt (request : ChatRequest) (st : State) :
  prompt request = None \/ prompt request = Some EmptyString ->
  forward_body request st = (Raise (empty_prompt_error st), st).
Proof.
  intros [Hp|Hp]; unfold forward_body; run; rewrite Hp; reflexivity.
Qed.

(** An attempt with a [max_tokens] that is not positive raises in the
    validator, after the log record of the invocation and before any
    call to a collaborator. *)
Lemma forward_body_bad_max_tokens (request : ChatRequest) (st : State)
    (request_prompt : string) (n : Z) :
  prompt request = Some request_prompt ->
  request_prompt <> EmptyString ->
  max_tokens request = Some n ->
  n <= 0 ->
  forward_body request st
  = (Raise (max_tokens_error n), add_log (invoked_record st request_prompt) st).
Proof.
  intros Hp Hne Hmt Hn. unfold forward_body. run. rewrite Hp.
  destruct request_prompt as [|c p']; [congruence|].
  unfold merged_kwargs, HuggingFaceChatParameters_init, ensure_positive,
    enforce_default_if_none.
  rewrite Hmt. apply Z.leb_le in Hn. rewrite Hn. reflexivity.
Qed.

(** What the decorated [forward] does with an invalid input, for every
    request and state.  A request whose prompt is empty or missing, or whose
    [max_tokens] is zero or negative (the prompt being given), fails with
    an invalid-prompt error, respectively a validation error, that names
    the field, the offending value and the provider, and no attempt calls a
    collaborator; but the check is inside the retried method, so that the
    error is raised three times, the decorator sleeping 1 and then 2
    time-units in between, before it reaches the caller. *)
Lemma invalid_input_fails_without_backend_call
    (request : ChatRequest) (st : State) :
  (prompt request = None \/ prompt request = Some EmptyString ->
   exists st',
     forward request st = (Raise (empty_prompt_error st), st')
     /\ trace st' = (trace st ++ [EvSleep 1; EvSleep 2])%list
     /\ world st' = world st)
  /\ (forall request_prompt n,
         prompt request = Some request_prompt ->
         request_prompt <> EmptyString ->
         max_tokens request = Some n ->
         n <= 0 ->
         exists st',
           forward request st = (Raise (max_tokens_error n), st')
           /\ trace st' = (trace st ++ [EvSleep 1; EvSleep 2])%list
           /\ world st' = world st).
Proof.
  split.
  - intros Hp. rewrite forward_unfold.
    rewrite !(forward_body_empty_prompt request _ Hp).
    eexists. split; [reflexivity|]. simpl.
    rewrite <- app_assoc. split; reflexivity.
  - intros request_prompt n Hp Hne Hmt Hn. rewrite forward_unfold.
    rewrite !(forward_body_bad_max_tokens request _ request_prompt n Hp Hne Hmt Hn).
    eexists. split; [reflexivity|]. simpl.
    rewrite <- app_assoc. split; reflexivity.
Qed.

(** *** The timeout of the remote path *)

(** An event that hands no timeout to the inference endpoint. *)
Definition no_timeout_passed (ev : Event) : Prop :=
  match ev with
  | EvTextGeneration _ _ kwargs => kwargs !! "timeout" = None
  | _ => True
  end.

(** [keeps c]: running [c] adds no event that hands a timeout over. *)
Definition keeps {A} (c : M State A) : Prop :=
  forall st,
    Forall no_timeout_passed (trace st) ->
    Forall no_timeout_passed (trace (snd (c st))).

Lemma keeps_ret {A} (a : A) : keeps (ret a).
Proof. intros st Hst. exact Hst. Qed.

Lemma keeps_raise {A} (e : exn) : keeps (@raise State A e).
Proof. intros st Hst. exact Hst. Qed.

Lemma keeps_lift {A} (r : result A) : keeps (lift r).
Proof. intros st Hst. exact Hst. Qed.

Lemma keeps_get : keeps get.
Proof. intros st Hst. exact Hst. Qed.

Lemma keeps_logger lv m a : keeps (logger lv m a).
Proof. intros st Hst. exact Hst. Qed.

Lemma keeps_set_tokenizer t : keeps (modify (set_tokenizer t)).
Proof. intros st Hst. exact Hst. Qed.

Lemma keeps_set_local_model m : keeps (modify (set_local_model m)).
Proof. intros st Hst. exact Hst. Qed.

Lemma keeps_extern {A} ev (f : World -> result A * World) :
  no_timeout_passed ev -> keeps (extern ev f).
Proof.
  intros Hev st Hst. unfold extern.
  destruct (f (world st)) as [r w]. simpl.
  apply Forall_app. split; [exact Hst|]. constructor; [exact Hev|constructor].
Qed.

Lemma keeps_bind {A B} (c : M State A) (k : A -> M State B) :
  keeps c -> (forall a, keeps (k a)) -> keeps (bind c k).
Proof.
  intros Hc Hk st Hst. unfold bind. specialize (Hc st Hst).
  destruct (c st) as [[a|e] st1]; simpl in *; [apply Hk; exact Hc|exact Hc].
Qed.

Lemma keeps_bind_ret {A B} (a : A) (k : A -> M State B) :
  keeps (k a) -> keeps (bind (ret a) k).
Proof. intros Hk st Hst. exact (Hk st Hst). Qed.

Lemma keeps_bind_raise {A B} (e : exn) (k : A -> M State B) :
  keeps (bind (raise e) k).
Proof. intros st Hst. exact Hst. Qed.

Lemma keeps_try_except {A} (body : M State A) (handler : exn -> M State A) :
  keeps body -> (forall e, keeps (handler e)) -> keeps (try_except body handler).
Proof.
  intros Hb Hh st Hst. unfold try_except. specialize (Hb st Hst).
  destruct (body st) as [[a|e] st1]; simpl in *; [exact Hb|apply Hh; exact Hb].
Qed.

Create HintDb keeps_db.

Ltac keeps_steps :=
  repeat match goal with
    | |- keeps (ret _) => apply keeps_ret
    | |- keeps (raise _) => apply keeps_raise
    | |- keeps (lift _) => apply keeps_lift
    | |- keeps get => apply keeps_get
    | |- keeps (logger _ _ _) => apply keeps_logger
    | |- keeps (modify (set_tokenizer _)) => apply keeps_set_tokenizer
    | |- keeps (modify (set_local_model _)) => apply keeps_set_local_model
    | |- keeps (extern _ _) => apply keeps_extern; exact I
    | |- keeps (bind (raise _) _) => apply keeps_bind_raise
    | |- keeps (bind _ _) => apply keeps_bind; [|intros ?]
    | |- keeps (try_except _ _) => apply keeps_try_except; [|intros ?]
    | |- keeps (let '(_, _) := ?x in _) => destruct x
    | |- keeps (match ?x with _ => _ end) => destruct x
    | |- keeps _ => solve [auto with keeps_db]
    end.

Lemma keeps_normalize raw_name :
  keeps (_normalize_huggingface_model_name raw_name).
Proof. unfold _normalize_huggingface_model_name. keeps_steps. Qed.

#[local] Hint Resolve keeps_normalize : keeps_db.

Lemma keeps_count_tokens text : keeps (_count_tokens text).
Proof. unfold _count_tokens, count_with_tokenizer. keeps_steps. Qed.

#[local] Hint Resolve keeps_count_tokens : keeps_db.

Lemma keeps_make_raw_output prompt generated_text model_id :
  keeps (make_raw_output prompt generated_text model_id).
Proof. unfold make_raw_output. keeps_steps. Qed.

#[local] Hint Resolve keeps_make_raw_output : keeps_db.

Lemma keeps_load_local_model model_id : keeps (_load_local_model model_id).
Proof. unfold _load_local_model. keeps_steps. Qed.

#[local] Hint Resolve keeps_load_local_model : keeps_db.

Lemma keeps_local_inference model_id hf_kwargs :
  keeps (local_inference model_id hf_kwargs).
Proof. unfold local_inference, pop_required, pop. keeps_steps. Qed.

(** The keyword arguments handed to the endpoint are what is left once
    ["timeout"] and ["prompt"] have been popped. *)
Lemma keeps_remote_inference model_id hf_kwargs :
  keeps (remote_inference model_id hf_kwargs).
Proof.
  unfold remote_inference, pop_required, pop. simpl.
  destruct (delete "timeout" hf_kwargs !! "prompt") as [prompt|];
    [|apply keeps_bind_raise].
  apply keeps_bind_ret. simpl.
  apply keeps_bind; [|intros ?; keeps_steps].
  destruct (delete "prompt" (delete "timeout" hf_kwargs) !! "model");
    [keeps_steps|].
  apply keeps_extern. simpl.
  rewrite lookup_delete_ne by discriminate. apply lookup_delete_eq.
Qed.

Lemma keeps_forward_except {A} exc : keeps (@forward_except _ A exc).
Proof. unfold forward_except. destruct exc; keeps_steps. Qed.

Lemma keeps_forward_body request : keeps (forward_body request).
Proof.
  unfold forward_body. apply keeps_bind; [keeps_steps|]. intros self.
  destruct (prompt request) as [[|c p]|]; [keeps_steps| |keeps_steps].
  apply keeps_bind; [keeps_steps|]. intros _.
  apply keeps_bind; [keeps_steps|]. intros hf_kwargs.
  apply keeps_bind; [keeps_steps|]. intros model_id.
  destruct (pop "use_local_model" (VBool false) hf_kwargs) as [use_local kw].
  apply keeps_try_except; [|apply keeps_forward_except].
  apply keeps_bind; [|intros ?; keeps_steps].
  destruct (truthy use_local);
    [apply keeps_local_inference|apply keeps_remote_inference].
Qed.

(** Whatever the request and its provider parameters, no attempt of
    [forward] hands a timeout to the inference endpoint. *)
Lemma forward_passes_no_timeout request : keeps (forward request).
Proof.
  intros st Hst. rewrite forward_unfold.
  pose proof (keeps_forward_body request) as Hbody.
  assert (Hsleep : forall n s, Forall no_timeout_passed (trace s) ->
                               Forall no_timeout_passed (trace (sleep n s))).
  { intros n s Hs. simpl. apply Forall_app. split; [exact Hs|].
    constructor; [exact I|constructor]. }
  pose proof (Hbody st Hst) as H1.
  destruct (forward_body request st) as [[r|e1] s1]; [exact H1|].
  simpl in H1. pose proof (Hbody _ (Hsleep 1 s1 H1)) as H2.
  destruct (forward_body request (sleep 1 s1)) as [[r|e2] s2]; [exact H2|].
  simpl in H2. exact (Hbody _ (Hsleep 2 s2 H2)).
Qed.

End Facts.

(** *** The scenarios *)

Import Scenario.

Definition explain : ChatRequest :=
  request (Some "Explain retries") None VNone ∅.

Lemma normalize_model_name_falls_back_witness :
  strip_provider_prefix "huggingface:unknown/model" = "unknown/model"
  /\ startswith "huggingface:" "unknown/model" = false
  /\ exists r st',
       _normalize_huggingface_model_name (H := flaky 0)
         "huggingface:unknown/model" (fresh 0) = (Ok r, st')
       /\ trace st' = [EvModelInfo "unknown/model"].
Proof.
  destruct (normalize_model_name_falls_back (H := flaky 0)
              "huggingface:unknown/model" (fresh 0))
    as (Hstrip & _ & _ & Hret & _).
  split; [exact (Hstrip "unknown/model" eq_refl)|].
  split; [reflexivity|exact Hret].
Defined.

(** An unknown model falls back to the default and logs the warning. *)
Example unknown_model_falls_back :
  let run := _normalize_huggingface_model_name (H := flaky 0)
               "huggingface:unknown/model" (fresh 0) in
  fst run = Ok "mistralai/Mistral-7B-Instruct-v0.2"
  /\ map level (log (snd run)) = [WARNING].
Proof. split; reflexivity. Qed.

(** Token counts: the tokenizer's count, and the word count when the
    tokenizer cannot be loaded; the empty text counts 0 either way. *)
Example count_tokens_examples :
  fst (_count_tokens (H := flaky 0) (VStr "Explain retries") (fresh 0)) = Ok 15
  /\ fst (_count_tokens (H := flaky 0) (VStr "") (fresh 0)) = Ok 0
  /\ fst (_count_tokens (H := offline) (VStr "Explain  retries ") disconnected)
     = Ok 2
  /\ fst (_count_tokens (H := offline) (VStr "") disconnected) = Ok 0
  /\ map level (log (snd (_count_tokens (H := offline) (VStr "") disconnected)))
     = [WARNING].
Proof. repeat split; vm_compute; reflexivity. Qed.

Lemma count_tokens_never_raises_witness :
  fst (_count_tokens (H := flaky 0) (VStr "Explain retries") (fresh 0))
  = Ok 15
  /\ tokenizer (snd (_count_tokens (H := flaky 0) (VStr "Explain retries")
                       (fresh 0))) = Some tt
  /\ fst (_count_tokens (H := offline) (VStr "Explain  retries ")
            disconnected) = Ok 2
  /\ log (snd (_count_tokens (H := offline) (VStr "Explain  retries ")
                 disconnected))
     = [count_warning (Raised "OSError" "Can't load tokenizer")].
Proof.
  destruct (count_tokens_never_raises (H := flaky 0) "Explain retries"
              (fresh 0)) as (n & st' & Hrun & _ & _ & _ & Hloaded).
  assert (Hl : n = 15 /\ log st' = [] /\ tokenizer st' = Some tt)
    by exact (Hloaded eq_refl).
  destruct (count_tokens_never_raises (H := offline) "Explain  retries "
              disconnected) as (m & st'' & Hrun' & _ & _ & _ & Hfailed).
  assert (Hf : m = 2
               /\ log st''
                  = [count_warning (Raised "OSError" "Can't load tokenizer")])
    by exact (Hfailed eq_refl).
  rewrite Hrun, Hrun'. simpl fst. simpl snd.
  destruct Hl as (-> & _ & Htokenizer). destruct Hf as (-> & Hlog).
  split; [reflexivity|]. split; [exact Htokenizer|].
  split; [reflexivity|exact Hlog].
Defined.

Lemma calculate_usage_returns_witness :
  Z.abs (read_prompt_tokens because) < float_limit
  /\ Z.abs (read_completion_tokens because) < float_limit
  /\ calculate_usage mistral because
     = Ok {| total_tokens := 7; prompt_tokens := 3; completion_tokens := 4;
             cost_usd := 0.000011 |}.
Proof.
  split; [reflexivity|]. split; [reflexivity|].
  exact (calculate_usage_returns mistral because eq_refl eq_refl).
Defined.

(** C3, as stated, fails: a prompt count of [2 ^ 1024] does not convert to
    a float and [calculate_usage] raises [OverflowError]. *)
Lemma calculate_usage_raises_on_astronomical_count :
  calculate_usage mistral astronomical
  = Raise (OverflowError "int too large to convert to float").
Proof. vm_compute. reflexivity. Qed.

Lemma normalize_max_tokens_witness :
  prompt explain = Some "Explain retries"
  /\ (forall n, max_tokens explain = Some n -> 0 < n)
  /\ exists hf_parameters,
       HuggingFaceChatParameters_init "Explain retries" None (VFloat 0.7)
         None VNone = Ok hf_parameters
       /\ p_max_tokens hf_parameters = 512
       /\ to_huggingface_kwargs (H := flaky 0) hf_parameters
            !! "max_new_tokens" = Some (VInt (p_max_tokens hf_parameters)).
Proof.
  assert (Hmt : forall n, max_tokens explain = Some n -> 0 < n)
    by (intros n Hn; discriminate Hn).
  split; [reflexivity|]. split; [exact Hmt|].
  destruct (normalize_max_tokens (H := flaky 0) explain "Explain retries"
              eq_refl ltac:(discriminate) Hmt)
    as (hf_parameters & Hinit & Hval & _ & Hkey & _).
  exists hf_parameters. split; [exact Hinit|]. split; [exact Hval|exact Hkey].
Defined.

(** A requested positive value is kept. *)
Example normalize_keeps_requested_max_tokens :
  exists hf_parameters,
       HuggingFaceChatParameters_init "Explain retries" None (VFloat 0.7)
         (Some 64) (VInt 5) = Ok hf_parameters
       /\ to_huggingface_kwargs (H := flaky 0) hf_parameters
          = {[ "prompt" := VStr "Explain retries";
               "max_new_tokens" := VInt 64;
               "temperature" := VFloat 0.7;
               "timeout" := VInt 5 ]}.
Proof. eexists. split; reflexivity. Qed.

(** A request whose provider parameters leave [top_p] and [timeout] unset
    and ask for a negative [max_new_tokens]. *)
Definition overriding : ChatRequest :=
  request (Some "Explain retries") (Some 64) (VInt 5)
          {[ "top_p" := VNone; "timeout" := VNone;
             "max_new_tokens" := VInt (-5); "seed" := VInt 7 ]}.

Lemma merge_skips_none_and_overrides_witness :
  exists hf_kwargs,
    merged_kwargs (H := flaky 0) "Explain retries" overriding = Ok hf_kwargs
    /\ hf_kwargs !! "top_p" = None
    /\ hf_kwargs !! "timeout" = Some (VInt 5)
    /\ hf_kwargs !! "max_new_tokens" = Some (VInt (-5))
    /\ hf_kwargs !! "seed" = Some (VInt 7)
    /\ hf_kwargs !! "temperature" = Some (VFloat 0.7).
Proof.
  eexists. split; [reflexivity|].
  destruct (merge_skips_none_and_overrides (H := flaky 0) overriding
              "Explain retries" _ eq_refl) as (hf_parameters & Hinit & Hk).
  inversion Hinit; subst hf_parameters.
  split; [exact (Hk "top_p")|]. split; [exact (Hk "timeout")|].
  split; [exact (Hk "max_new_tokens")|].
  split; [exact (Hk "seed")|exact (Hk "temperature")].
Defined.

Lemma forward_retry_policy_witness :
  1 <= 3
  /\ Tenacity.wait_exponential 1 10 2 1 3 = 4
  /\ is_ok (fst (forward (H := flaky 2) explain (fresh 2))) = true
  /\ fst (forward (H := flaky 3) explain (fresh 3))
     = Raise (HTTPError (Some 503) "503 Server Error: Service Unavailable").
Proof.
  assert (H3 : 1 <= 3) by lia.
  split; [exact H3|]. split; [|split].
  - destruct (forward_retry_policy (H := flaky 2) explain (fresh 2))
      as (Hwait & _).
    destruct (Hwait 3 H3) as (-> & _). reflexivity.
  - destruct (forward_retry_policy (H := flaky 2) explain (fresh 2))
      as (_ & Hrun & _).
    rewrite Hrun. vm_compute. reflexivity.
  - destruct (forward_retry_policy (H := flaky 3) explain (fresh 3))
      as (_ & Hrun & _).
    rewrite Hrun. vm_compute. reflexivity.
Defined.

(** The trace of the run that fails twice: three calls of the endpoint,
    separated by sleeps of 1 and 2. *)
Example flaky_run_sleeps :
  List.filter (fun ev => match ev with EvSleep _ => true | _ => false end)
              (trace (snd (forward (H := flaky 2) explain (fresh 2))))
  = [EvSleep 1; EvSleep 2]
  /\ world (snd (forward (H := flaky 2) explain (fresh 2))) = 3%nat.
Proof. split; vm_compute; reflexivity. Qed.

(** C2: what the code does.  The docstrings keep the retries for
    transient errors, and an invalid input is to fail at once.  Yet with
    an empty prompt the body of [forward] is run three times, the decorator
    sleeping 1 and then 2 time-units in between, before the invalid-prompt
    error reaches the caller; and likewise with a [max_tokens] of -5 and
    its validation error.  No collaborator is called meanwhile. *)
Lemma empty_prompt_is_retried :
  let run := forward (H := flaky 0) (request (Some "") None VNone ∅)
                     (fresh 0) in
  let run' := forward (H := flaky 0)
                      (request (Some "hi") (Some (-5)) VNone ∅) (fresh 0) in
  fst run
  = Raise (InvalidPromptError "HuggingFace prompt cannot be empty."
             "HuggingFace" "huggingface:mistralai/Mistral-7B-Instruct-v0.2")
  /\ trace (snd run) = [EvSleep 1; EvSleep 2]
  /\ world (snd run) = 0%nat
  /\ snd run <> fresh 0
  /\ fst run'
     = Raise (ValidationError "max_tokens must be a positive integer, got -5"
                "HuggingFace")
  /\ trace (snd run') = [EvSleep 1; EvSleep 2]
  /\ world (snd run') = 0%nat.
Proof.
  split; [reflexivity|]. split; [reflexivity|]. split; [reflexivity|].
  split.
  - intros Heq. apply (f_equal trace) in Heq. discriminate Heq.
  - split; [vm_compute; reflexivity|]. split; vm_compute; reflexivity.
Qed.

(** C8: what the code does.  With no timeout in the request, the local
    variable [timeout] of the remote path is [None], not 30: the key is
    always present in the keyword arguments, and the default of [pop] is
    used for an absent key only.  And with a timeout of 5 in the request,
    the one call of the endpoint receives [max_new_tokens] and
    [temperature] only: no timeout reaches it. *)
Lemma remote_call_receives_no_timeout :
  (exists hf_kwargs,
      merged_kwargs (H := flaky 0) "Explain retries" explain = Ok hf_kwargs
      /\ hf_kwargs !! "timeout" = Some VNone
      /\ remote_timeout hf_kwargs = VNone)
  /\ (forall hf_kwargs : gmap string value,
        remote_timeout (delete "timeout" hf_kwargs) = VInt 30)
  /\ List.filter
       (fun ev => match ev with EvTextGeneration _ _ _ => true | _ => false end)
       (trace (snd (forward_body (H := flaky 0)
                      (request (Some "Explain retries") None (VInt 5) ∅)
                      (fresh 0))))
     = [EvTextGeneration (VStr "Explain retries")
          "mistralai/Mistral-7B-Instruct-v0.2"
          {[ "max_new_tokens" := VInt 512; "temperature" := VFloat 0.7 ]}].
Proof.
  split; [|split].
  - eexists. split; [reflexivity|]. split; reflexivity.
  - intros hf_kwargs. unfold remote_timeout, pop. simpl.
    rewrite lookup_delete_eq. reflexivity.
  - vm_compute. reflexivity.
Qed.

End HuggingFaceFacts.

(** * Further properties of the adapter *)

Module ClientFacts.
Import HuggingFace HuggingFaceClient BuiltinsFacts HuggingFaceFacts.

Section Facts.
Context `{Backend}.
Variable Client : Type.
Variable InferenceClient : string -> result Client.
Variable get_api_key : ModelInfo -> option string.

Definition initialized_record (model_id : string) : LogRecord :=
  {| level := INFO;
     msg := "Initialized HuggingFace Inference client for model: %s";
     args := [model_id] |}.

(** X1.  Without an API token, or with an empty one, [create_client] raises
    the provider-configuration error at once: no client is built, the
    catalogue is not queried and nothing is logged. *)
Theorem create_client_without_token (st : State) :
  get_api_key (model_info st) = None
  \/ get_api_key (model_info st) = Some EmptyString ->
  create_client Client InferenceClient get_api_key st
  = (Raise missing_token_error, st).
Proof.
  intros [Hk|Hk]; unfold create_client, bind, get; simpl; rewrite Hk;
    reflexivity.
Qed.

(** X2.  With a token from which the client can be built, [create_client]
    returns that client whatever the catalogue answers: it queries the
    catalogue once, and its last log record announces the client for the
    name the lookup confirmed or, when the lookup failed, for the default
    model.  The warning of its own [except] clause is never logged. *)
Theorem create_client_returns_client (st : State) (api_key : string)
    (client : Client) :
  get_api_key (model_info st) = Some api_key ->
  api_key <> EmptyString ->
  InferenceClient api_key = Ok client ->
  let stripped := strip_provider_prefix (name (model_info st)) in
  exists model_id st',
    create_client Client InferenceClient get_api_key st = (Ok client, st')
    /\ trace st' = (trace st ++ [EvModelInfo stripped])%list
    /\ (model_id = stripped \/ model_id = default_model)
    /\ (is_ok (fst (HfApi_model_info stripped (world st))) = true ->
        model_id = stripped /\ log st' = (log st ++ [initialized_record stripped])%list)
    /\ (is_ok (fst (HfApi_model_info stripped (world st))) = false ->
        model_id = default_model)
    /\ last (log st') = Some (initialized_record model_id)
    /\ Forall (fun r => msg r
                        <> "Could not verify HuggingFace model information: %s")
              (drop (length (log st)) (log st')).
Proof.
  intros Hk Hne Hc stripped. unfold create_client, bind, get. simpl.
  rewrite Hk. destruct api_key as [|c k]; [congruence|].
  unfold lift. rewrite Hc. unfold try_except, bind.
  rewrite (normalize_name_run (name (model_info st)) st). fold stripped.
  simpl.
  destruct (HfApi_model_info stripped (world st)) as [[[]|exc] w]; simpl.
  - exists stripped. eexists. split; [reflexivity|]. simpl.
    split; [reflexivity|]. split; [now left|]. split; [now split|].
    split; [discriminate|]. split; [apply last_snoc|].
    rewrite drop_app_length. repeat constructor. discriminate.
  - exists default_model. eexists. split; [reflexivity|]. simpl.
    split; [reflexivity|]. split; [now right|]. split; [discriminate|].
    split; [reflexivity|]. split; [apply last_snoc|].
    rewrite <- app_assoc, drop_app_length. repeat constructor; discriminate.
Qed.

End Facts.

Import Scenario.

Lemma create_client_without_token_witness :
  HuggingFaceClient.create_client (H := flaky 0) string (@Ok string)
    (fun _ => Some EmptyString) (fresh 0)
  = (Raise HuggingFaceClient.missing_token_error, fresh 0).
Proof.
  apply (create_client_without_token (H := flaky 0) string (@Ok string)
           (fun _ => Some EmptyString) (fresh 0)).
  right. reflexivity.
Defined.

Lemma create_client_returns_client_witness :
  exists st',
    HuggingFaceClient.create_client (H := flaky 0) string (@Ok string)
      (fun _ => Some "hf_token") (fresh 0)
    = (Ok "hf_token", st')
    /\ trace st' = [EvModelInfo "mistralai/Mistral-7B-Instruct-v0.2"]
    /\ last (log st')
       = Some (initialized_record "mistralai/Mistral-7B-Instruct-v0.2").
Proof.
  destruct (create_client_returns_client (H := flaky 0) string (@Ok string)
              (fun _ => Some "hf_token") (fresh 0) "hf_token" "hf_token"
              eq_refl ltac:(discriminate) eq_refl)
    as (model_id & st' & Hrun & Htrace & _ & Hknown & _ & Hlast & _).
  destruct (Hknown eq_refl) as [-> _].
  exists st'. split; [exact Hrun|]. split; [exact Htrace|exact Hlast].
Defined.

End ClientFacts.

Module AdapterFacts.
Import HuggingFace BuiltinsFacts TenacityFacts HuggingFaceFacts.

Section Facts.
Context `{Backend}.

(** *** What a computation does to the state, step by step *)

(** [steps R c]: whatever the state [c] starts in, the state it leaves is
    related to it by [R]. *)
Definition steps (R : State -> State -> Prop) {A} (c : M State A) : Prop :=
  forall st, R st (snd (c st)).

(** A relation that every step of the adapter respects, but for the events
    it emits and the local model it stores: it is reflexive and transitive,
    and holds across a log record, a change of tokenizer and an event that
    [P] accepts. *)
Record frame (R : State -> State -> Prop) (P : Event -> Prop) : Prop := {
  frame_refl : forall st, R st st;
  frame_trans : forall a b c, R a b -> R b c -> R a c;
  frame_log : forall st r, R st (add_log r st);
  frame_tokenizer : forall st t, R st (set_tokenizer t st);
  frame_event : forall ev, P ev -> forall st w,
      R st (set_world w (add_event ev st))
}.

Section Steps.
Variable R : State -> State -> Prop.
Variable P : Event -> Prop.
Hypothesis F : frame R P.

Lemma steps_ret {A} (a : A) : steps R (ret a).
Proof. intros st. apply (frame_refl _ _ F). Qed.

Lemma steps_raise {A} (e : exn) : steps R (@raise State A e).
Proof. intros st. apply (frame_refl _ _ F). Qed.

Lemma steps_lift {A} (r : result A) : steps R (lift r).
Proof. intros st. apply (frame_refl _ _ F). Qed.

Lemma steps_get : steps R get.
Proof. intros st. apply (frame_refl _ _ F). Qed.

Lemma steps_logger lv m a : steps R (logger lv m a).
Proof. intros st. apply (frame_log _ _ F). Qed.

Lemma steps_set_tokenizer t : steps R (modify (set_tokenizer t)).
Proof. intros st. apply (frame_tokenizer _ _ F). Qed.

Lemma steps_extern {A} ev (f : World -> result A * World) :
  P ev -> steps R (extern ev f).
Proof.
  intros Hev st. unfold extern. destruct (f (world st)) as [r w].
  apply (frame_event _ _ F ev Hev).
Qed.

Lemma steps_bind {A B} (c : M State A) (k : A -> M State B) :
  steps R c -> (forall a, steps R (k a)) -> steps R (bind c k).
Proof.
  intros Hc Hk st. unfold bind. specialize (Hc st).
  destruct (c st) as [[a|e] st1]; simpl in *; [|exact Hc].
  exact (frame_trans _ _ F _ _ _ Hc (Hk a st1)).
Qed.

Lemma steps_try_except {A} (body : M State A) (handler : exn -> M State A) :
  steps R body -> (forall e, steps R (handler e)) ->
  steps R (try_except body handler).
Proof.
  intros Hb Hh st. unfold try_except. specialize (Hb st).
  destruct (body st) as [[a|e] st1]; simpl in *; [exact Hb|].
  exact (frame_trans _ _ F _ _ _ Hb (Hh e st1)).
Qed.

Lemma steps_bind_ret {A B} (a : A) (k : A -> M State B) :
  steps R (k a) -> steps R (bind (ret a) k).
Proof. intros Hk st. exact (Hk st). Qed.

Lemma steps_bind_raise {A B} (e : exn) (k : A -> M State B) :
  steps R (bind (raise e) k).
Proof. intros st. apply (frame_refl _ _ F). Qed.

Create HintDb steps_db.

Ltac steps_go :=
  repeat match goal with
    | |- steps _ (ret _) => apply steps_ret
    | |- steps _ (raise _) => apply steps_raise
    | |- steps _ (lift _) => apply steps_lift
    | |- steps _ get => apply steps_get
    | |- steps _ (logger _ _ _) => apply steps_logger
    | |- steps _ (modify (set_tokenizer _)) => apply steps_set_tokenizer
    | |- steps _ (extern _ _) => apply steps_extern; solve [auto with steps_db]
    | |- steps _ (bind (raise _) _) => apply steps_bind_raise
    | |- steps _ (bind _ _) => apply steps_bind; [|intros ?]
    | |- steps _ (try_except _ _) => apply steps_try_except; [|intros ?]
    | |- steps _ (let '(_, _) := ?x in _) => destruct x
    | |- steps _ (match ?x with _ => _ end) => destruct x
    | |- steps _ _ => solve [auto with steps_db]
    end.

(** The catalogue, the tokenizer loader and the tokenizer are what name
    resolution and token counting call. *)
Hypothesis P_model_info : forall n, P (EvModelInfo n).
Hypothesis P_tokenizer_load : forall m, P (EvTokenizerLoad m).
Hypothesis P_encode : forall t, P (EvEncode t).

#[local] Hint Resolve P_model_info P_tokenizer_load P_encode : steps_db.

Lemma steps_normalize raw_name :
  steps R (_normalize_huggingface_model_name raw_name).
Proof. unfold _normalize_huggingface_model_name. steps_go. Qed.

#[local] Hint Resolve steps_normalize : steps_db.

Lemma steps_count_tokens text : steps R (_count_tokens text).
Proof. unfold _count_tokens, count_with_tokenizer. steps_go. Qed.

#[local] Hint Resolve steps_count_tokens : steps_db.

Lemma steps_make_raw_output prompt generated_text model_id :
  steps R (make_raw_output prompt generated_text model_id).
Proof. unfold make_raw_output. steps_go. Qed.

Lemma steps_forward_except {A} exc : steps R (@forward_except _ A exc).
Proof. unfold forward_except. destruct exc; steps_go. Qed.

#[local] Hint Resolve steps_make_raw_output steps_forward_except : steps_db.

(** Loading the local model calls the two loaders and builds the
    pipeline. *)
Hypothesis P_model_load : forall m, P (EvModelLoad m).
Hypothesis P_pipeline : P EvPipeline.

#[local] Hint Resolve P_model_load P_pipeline : steps_db.

Lemma steps_load_local_model model_id : steps R (_load_local_model model_id).
Proof. unfold _load_local_model. steps_go. Qed.

#[local] Hint Resolve steps_load_local_model : steps_db.

(** The local path stores the model it loads and calls the pipeline. *)
Hypothesis R_local_model : forall st m, R st (set_local_model m st).
Hypothesis P_pipeline_call : forall p kw, P (EvPipelineCall p kw).

#[local] Hint Resolve P_pipeline_call : steps_db.

Lemma steps_set_local_model m : steps R (modify (set_local_model m)).
Proof. intros st. apply R_local_model. Qed.

#[local] Hint Resolve steps_set_local_model : steps_db.

Lemma steps_local_inference model_id hf_kwargs :
  steps R (local_inference model_id hf_kwargs).
Proof. unfold local_inference, pop_required, pop. steps_go. Qed.

(** The remote path calls the endpoint. *)
Hypothesis P_text_generation : forall p m kw, P (EvTextGeneration p m kw).

#[local] Hint Resolve P_text_generation : steps_db.

Lemma steps_remote_inference model_id hf_kwargs :
  steps R (remote_inference model_id hf_kwargs).
Proof. unfold remote_inference, pop_required, pop. simpl. steps_go. Qed.

End Steps.

(** The same steps, for a frame given by name. *)
Ltac steps_using F :=
  repeat match goal with
    | |- steps _ (ret _) => apply (steps_ret _ _ F)
    | |- steps _ (raise _) => apply (steps_raise _ _ F)
    | |- steps _ (lift _) => apply (steps_lift _ _ F)
    | |- steps _ get => apply (steps_get _ _ F)
    | |- steps _ (logger _ _ _) => apply (steps_logger _ _ F)
    | |- steps _ (modify (set_tokenizer _)) => apply (steps_set_tokenizer _ _ F)
    | |- steps _ (extern _ _) => apply (steps_extern _ _ F); exact I
    | |- steps _ (bind (raise _) _) => apply (steps_bind_raise _ _ F)
    | |- steps _ (bind _ _) => apply (steps_bind _ _ F); [|intros ?]
    | |- steps _ (try_except _ _) => apply (steps_try_except _ _ F); [|intros ?]
    | |- steps _ (_normalize_huggingface_model_name _) =>
        apply (steps_normalize _ _ F); intros; exact I
    | |- steps _ (_count_tokens _) =>
        apply (steps_count_tokens _ _ F); intros; exact I
    | |- steps _ (make_raw_output _ _ _) =>
        apply (steps_make_raw_output _ _ F); intros; exact I
    | |- steps _ (forward_except _) => apply (steps_forward_except _ _ F)
    | |- steps _ (let '(_, _) := ?x in _) => destruct x
    | |- steps _ (match ?x with _ => _ end) => destruct x
    end.

Section Whole.
Variable R : State -> State -> Prop.
Variable P : Event -> Prop.
Hypothesis F : frame R P.
Hypothesis P_model_info : forall n, P (EvModelInfo n).

(** The body of [forward] respects what its two paths respect. *)
Lemma steps_forward_body_from request :
  (forall m kw, steps R (local_inference m kw)) ->
  (forall m kw, steps R (remote_inference m kw)) ->
  steps R (forward_body request).
Proof.
  intros Hlocal Hremote.
  assert (Hn : forall raw, steps R (_normalize_huggingface_model_name raw))
    by (intros raw; apply (steps_normalize _ _ F P_model_info)).
  unfold forward_body. apply (steps_bind _ _ F); [apply (steps_get _ _ F)|].
  intros self.
  destruct (prompt request) as [[|c p]|];
    [apply (steps_raise _ _ F)| |apply (steps_raise _ _ F)].
  apply (steps_bind _ _ F); [apply (steps_logger _ _ F)|]. intros _.
  apply (steps_bind _ _ F); [apply (steps_lift _ _ F)|]. intros hf_kwargs.
  apply (steps_bind _ _ F); [apply Hn|]. intros model_id.
  destruct (pop "use_local_model" (VBool false) hf_kwargs) as [use_local kw].
  apply (steps_try_except _ _ F); [|apply (steps_forward_except _ _ F)].
  apply (steps_bind _ _ F).
  - destruct (truthy use_local); [apply Hlocal|apply Hremote].
  - intros raw. apply (steps_bind _ _ F); [apply (steps_lift _ _ F)|].
    intros u. apply (steps_ret _ _ F).
Qed.

(** The retried [forward] respects what its body and its sleeps respect. *)
Lemma steps_forward_from request :
  (forall st n, R st (sleep n st)) ->
  steps R (forward_body request) ->
  steps R (forward request).
Proof.
  intros R_sleep Hbody st. rewrite forward_unfold.
  pose proof (Hbody st) as H1.
  destruct (forward_body request st) as [[r|e1] s1]; [exact H1|]. simpl in H1.
  assert (H2 : R st (snd (forward_body request (sleep 1 s1)))).
  { eapply (frame_trans _ _ F); [exact H1|].
    eapply (frame_trans _ _ F); [apply R_sleep|apply Hbody]. }
  destruct (forward_body request (sleep 1 s1)) as [[r|e2] s2]; [exact H2|].
  simpl in H2.
  eapply (frame_trans _ _ F); [exact H2|].
  eapply (frame_trans _ _ F); [apply R_sleep|apply Hbody].
Qed.

End Whole.

(** A relation that holds across every event but a sleep, and across the
    storing of the local model, holds across the body of [forward]. *)
Lemma steps_forward_body (R : State -> State -> Prop) (P : Event -> Prop)
    (F : frame R P) request :
  (forall ev, match ev with EvSleep _ => True | _ => P ev end) ->
  (forall st m, R st (set_local_model m st)) ->
  steps R (forward_body request).
Proof.
  intros HP Hlocal.
  apply (steps_forward_body_from R P F (fun n => HP (EvModelInfo n))).
  - intros m kw.
    apply (steps_local_inference R P F
             (fun n => HP (EvModelInfo n)) (fun n => HP (EvTokenizerLoad n))
             (fun t => HP (EvEncode t)) (fun n => HP (EvModelLoad n))
             (HP EvPipeline) Hlocal (fun p k => HP (EvPipelineCall p k))).
  - intros m kw.
    apply (steps_remote_inference R P F
             (fun n => HP (EvModelInfo n)) (fun n => HP (EvTokenizerLoad n))
             (fun t => HP (EvEncode t))
             (fun p n k => HP (EvTextGeneration p n k))).
Qed.

(** *** One attempt of [forward], after its checks *)

(** The [try] statement of [forward] with its two [except] clauses, for the
    model identifier, the flag and the keyword arguments it is reached
    with. *)
Definition attempt (info : ModelInfo) (model_id : string) (use_local : value)
    (hf_kwargs : gmap string value) : M State ChatResponse :=
  try_except
    (let* raw_output :=
       if truthy use_local
       then local_inference model_id hf_kwargs
       else remote_inference model_id hf_kwargs in
     let* usage_stats := lift (calculate_usage info raw_output) in
     ret {| data := generated_text raw_output;
            raw_output := raw_output;
            response_usage := usage_stats |})
    forward_except.

(** The state in which the attempt starts: the invocation is logged and the
    model name resolved. *)
Definition entered (st : State) (request_prompt : string) : State :=
  snd (_normalize_huggingface_model_name (name (model_info st))
         (add_log (invoked_record st request_prompt) st)).

(** The model identifier the attempt uses: the name without its prefix when
    the catalogue knows it, the default model otherwise. *)
Definition resolved (st : State) : string :=
  let stripped := strip_provider_prefix (name (model_info st)) in
  if is_ok (fst (HfApi_model_info stripped (world st)))
  then stripped else default_model.

Lemma normalize_resolves (st : State) (request_prompt : string) :
  _normalize_huggingface_model_name (name (model_info st))
    (add_log (invoked_record st request_prompt) st)
  = (Ok (resolved st), entered st request_prompt).
Proof.
  unfold entered, resolved. rewrite normalize_name_run. simpl.
  destruct (HfApi_model_info _ (world st)) as [[[]|exc] w]; reflexivity.
Qed.

(** With a prompt and valid parameters, the body of [forward] is the
    attempt, started with the merged keyword arguments less
    ["use_local_model"]. *)
Lemma forward_body_attempt (request : ChatRequest) (st : State)
    (request_prompt : string) (hf_kwargs : gmap string value) :
  prompt request = Some request_prompt ->
  request_prompt <> EmptyString ->
  merged_kwargs request_prompt request = Ok hf_kwargs ->
  forward_body request st
  = attempt (model_info st) (resolved st)
            (default (VBool false) (hf_kwargs !! "use_local_model"))
            (delete "use_local_model" hf_kwargs)
            (entered st request_prompt).
Proof.
  intros Hp Hne Hm. unfold forward_body.
  unfold bind at 1. unfold get. simpl. rewrite Hp.
  destruct request_prompt as [|c p]; [congruence|].
  unfold bind at 1. unfold logger, modify. simpl.
  unfold bind at 1. unfold lift. rewrite Hm.
  unfold bind at 1.
  change (add_log _ st) with (add_log (invoked_record st (String c p)) st).
  rewrite normalize_resolves. reflexivity.
Qed.

Lemma merged_kwargs_raises (request : ChatRequest) (request_prompt : string) e :
  merged_kwargs request_prompt request = Raise e ->
  exists n, max_tokens request = Some n /\ n <= 0 /\ e = max_tokens_error n.
Proof.
  unfold merged_kwargs, HuggingFaceChatParameters_init, ensure_positive,
    enforce_default_if_none.
  destruct (max_tokens request) as [n|]; simpl; [|discriminate].
  destruct (Z.leb_spec n 0); [|discriminate].
  intros Heq; inversion Heq. exists n. auto.
Qed.



(** What the first [except] clause itself raises on an HTTP error that has
    no response. *)
Definition handler_failure : exn :=
  AttributeError "'NoneType' object has no attribute 'status_code'".

(** What reaches the caller when the [try] block fails with [exc], and what
    is logged then. *)
Definition surfaced (exc : exn) : exn :=
  match exc with
  | HTTPError (Some _) _ => exc
  | HTTPError None _ => handler_failure
  | _ => ProviderAPIError "HuggingFace" ("API error: " +:+ exn_str exc) exc
  end.

Definition failure_records (exc : exn) : list LogRecord :=
  match exc with
  | HTTPError (Some status_code) _ =>
      if (500 <=? status_code) && (status_code <? 600)
      then [{| level := ERROR; msg := "HuggingFace server error: %s";
               args := [exn_str exc] |}]
      else []
  | HTTPError None _ => []
  | _ => [{| level := ERROR;
             msg := "Unexpected error in HuggingFaceModel.forward()";
             args := [] |}]
  end.

Lemma forward_except_run {A} exc st :
  exists st',
    @forward_except _ A exc st = (Raise (surfaced exc), st')
    /\ log st' = (log st ++ failure_records exc)%list
    /\ trace st' = trace st /\ world st' = world st
    /\ tokenizer st' = tokenizer st /\ _local_model st' = _local_model st.
Proof.
  unfold forward_except, surfaced, failure_records, handler_failure.
  destruct exc as [| | |[status_code|]| | | |]; run;
    try (eexists; split; [reflexivity|]; simpl; rewrite ?app_nil_r; now auto).
  destruct ((500 <=? status_code) && (status_code <? 600)); simpl;
    eexists; (split; [reflexivity|]); simpl; rewrite ?app_nil_r; auto.
Qed.

Lemma forward_except_raises {A} exc st :
  is_ok (fst (@forward_except _ A exc st)) = false.
Proof.
  destruct (@forward_except_run A exc st) as (st' & -> & _). reflexivity.
Qed.



(** *** The remote path *)

(** The prompt handed to the backend: the one built from the request,
    unless the provider parameters carry a ["prompt"] of their own. *)
Definition sent_prompt (request : ChatRequest) (request_prompt : string)
  : value :=
  match provider_params request !! "prompt" with
  | Some v =>
      if is_none v
      then VStr (build_prompt (context request) request_prompt) else v
  | None => VStr (build_prompt (context request) request_prompt)
  end.

(** The keyword arguments handed to the endpoint beside the prompt and the
    model. *)
Definition sent_kwargs (hf_kwargs : gmap string value) : gmap string value :=
  delete "prompt" (delete "timeout" (delete "use_local_model" hf_kwargs)).

Lemma merged_kwargs_prompt (request : ChatRequest) (request_prompt : string)
    (hf_kwargs : gmap string value) :
  merged_kwargs request_prompt request = Ok hf_kwargs ->
  hf_kwargs !! "prompt" = Some (sent_prompt request request_prompt).
Proof.
  unfold merged_kwargs.
  destruct (HuggingFaceChatParameters_init _ _ _ _ _) as [hp|e] eqn:Hi;
    [|discriminate].
  intros Heq; inversion Heq; subst. clear Heq.
  rewrite lookup_update, lookup_not_none_items. unfold sent_prompt.
  assert (Hbuilt : to_huggingface_kwargs hp !! "prompt"
                   = Some (VStr (build_prompt (context request) request_prompt))).
  { unfold HuggingFaceChatParameters_init in Hi.
    destruct (ensure_positive _); inversion Hi; subst.
    unfold to_huggingface_kwargs. simpl. by simplify_map_eq. }
  destruct (provider_params request !! "prompt") as [v|]; [|exact Hbuilt].
  destruct (is_none v); [exact Hbuilt|reflexivity].
Qed.

(** On the remote path the attempt starts with the call of the endpoint. *)
Lemma attempt_remote_call info model_id use_local
    (hf_kwargs : gmap string value) (pv : value) (st : State) :
  truthy use_local = false ->
  hf_kwargs !! "prompt" = Some pv ->
  hf_kwargs !! "model" = None ->
  let kwargs := delete "prompt" (delete "timeout" hf_kwargs) in
  attempt info model_id use_local hf_kwargs st
  = match client_text_generation pv model_id kwargs (world st) with
    | (Ok response, w) =>
        try_except
          (let* raw_output := make_raw_output pv response model_id in
           let* usage_stats := lift (calculate_usage info raw_output) in
           ret {| data := generated_text raw_output;
                  raw_output := raw_output;
                  response_usage := usage_stats |})
          forward_except
          (set_world w (add_event (EvTextGeneration pv model_id kwargs) st))
    | (Raise exc, w) =>
        forward_except exc
          (set_world w (add_event (EvTextGeneration pv model_id kwargs) st))
    end.
Proof.
  intros Hl Hp Hm kwargs. unfold attempt. rewrite Hl.
  unfold remote_inference, pop_required, pop. simpl.
  assert (Hp' : delete "timeout" hf_kwargs !! "prompt" = Some pv)
    by (rewrite lookup_delete_ne by discriminate; exact Hp).
  assert (Hm' : kwargs !! "model" = None)
    by (unfold kwargs; rewrite !lookup_delete_ne by discriminate; exact Hm).
  rewrite Hp'. fold kwargs.
  unfold try_except, bind, ret, extern. simpl. rewrite Hm'.
  destruct (client_text_generation pv model_id kwargs (world st))
    as [[response|exc] w]; reflexivity.
Qed.

(** X4.  When the endpoint call of the remote path fails, nothing else is
    called.  An HTTP error that has a response reaches the caller of the
    attempt as it is, and is logged as a server error exactly when its
    status is in the 5xx range; on an HTTP error that has no response the
    handler itself fails, and the caller gets its [AttributeError], nothing
    being logged; any other exception reaches the caller wrapped in a
    provider API error that carries it as the cause, after one error
    record.  What the endpoint was called with is the prompt built from the
    request (or the one the provider parameters give), the resolved model
    and the merged keyword arguments without ["prompt"], ["timeout"] and
    ["use_local_model"]. *)
Theorem remote_failure_surfaces (request : ChatRequest) (st : State)
    (request_prompt : string) (hf_kwargs : gmap string value) exc w :
  prompt request = Some request_prompt ->
  request_prompt <> EmptyString ->
  merged_kwargs request_prompt request = Ok hf_kwargs ->
  truthy (default (VBool false) (hf_kwargs !! "use_local_model")) = false ->
  hf_kwargs !! "model" = None ->
  let st1 := entered st request_prompt in
  let call := EvTextGeneration (sent_prompt request request_prompt)
                               (resolved st) (sent_kwargs hf_kwargs) in
  client_text_generation (sent_prompt request request_prompt) (resolved st)
                         (sent_kwargs hf_kwargs) (world st1) = (Raise exc, w) ->
  exists st',
    forward_body request st = (Raise (surfaced exc), st')
    /\ trace st' = (trace st1 ++ [call])%list
    /\ log st' = (log st1 ++ failure_records exc)%list
    /\ world st' = w
    /\ match exc with
       | HTTPError (Some _) _ => surfaced exc = exc
       | HTTPError None _ =>
           surfaced exc
           = AttributeError "'NoneType' object has no attribute 'status_code'"
           /\ failure_records exc = []
       | _ =>
           surfaced exc
           = ProviderAPIError "HuggingFace" ("API error: " +:+ exn_str exc) exc
       end.
Proof.
  intros Hp Hne Hm Hl Hmodel st1 call Hcall.
  rewrite (forward_body_attempt request st request_prompt hf_kwargs Hp Hne Hm).
  fold st1.
  rewrite (attempt_remote_call _ _ _ _ (sent_prompt request request_prompt))
    by (try assumption; rewrite lookup_delete_ne by discriminate;
        eauto using merged_kwargs_prompt).
  change (delete "prompt" (delete "timeout" (delete "use_local_model" hf_kwargs)))
    with (sent_kwargs hf_kwargs).
  rewrite Hcall.
  match goal with
  | |- context [forward_except exc ?s] =>
      destruct (@forward_except_run ChatResponse exc s)
        as (st' & Hrun & Hlog & Htr & Hw & _)
  end.
  exists st'. split; [exact Hrun|]. rewrite Hlog, Htr, Hw. simpl.
  repeat (split; [reflexivity|]).
  destruct exc as [| | |[status_code|]| | | |]; simpl; auto.
Qed.

(** *** Calls of the endpoint and sleeps *)

Definition is_text_generation (ev : Event) : bool :=
  match ev with EvTextGeneration _ _ _ => true | _ => false end.

(** Number of calls of the inference endpoint in a trace. *)
Definition calls (tr : list Event) : nat :=
  length (List.filter is_text_generation tr).

(** The sleeps of a trace, in order. *)
Definition seconds_slept (tr : list Event) : list Z :=
  flat_map (fun ev => match ev with EvSleep s => [s] | _ => [] end) tr.

Definition not_a_call (ev : Event) : Prop :=
  match ev with EvTextGeneration _ _ _ => False | _ => True end.

Definition not_a_sleep (ev : Event) : Prop :=
  match ev with EvSleep _ => False | _ => True end.

(** A quantity of the trace that the events accepted by [P] leave as it is
    gives a frame. *)
Lemma frame_of_measure {X} (f : list Event -> X) (P : Event -> Prop) :
  (forall tr ev, P ev -> f (tr ++ [ev])%list = f tr) ->
  frame (fun st st' => f (trace st') = f (trace st)) P.
Proof.
  intros Hf. split.
  - reflexivity.
  - intros a b c Hab Hbc. congruence.
  - reflexivity.
  - reflexivity.
  - intros ev Hev st w. simpl. apply Hf, Hev.
Qed.

Lemma calls_snoc tr ev :
  calls (tr ++ [ev]) = (calls tr + if is_text_generation ev then 1 else 0)%nat.
Proof.
  unfold calls. rewrite List.filter_app, length_app. simpl.
  destruct (is_text_generation ev); reflexivity.
Qed.

Lemma seconds_slept_snoc tr ev :
  seconds_slept (tr ++ [ev])
  = (seconds_slept tr ++ match ev with EvSleep s => [s] | _ => [] end)%list.
Proof. unfold seconds_slept. rewrite flat_map_app. simpl. now rewrite app_nil_r. Qed.

Definition same_calls (st st' : State) : Prop :=
  calls (trace st') = calls (trace st).

Definition same_sleeps (st st' : State) : Prop :=
  seconds_slept (trace st') = seconds_slept (trace st).

Lemma frame_calls : frame same_calls not_a_call.
Proof.
  apply (frame_of_measure calls). intros tr ev Hev. rewrite calls_snoc.
  destruct ev; simpl in *; lia.
Qed.

Lemma frame_sleeps : frame same_sleeps not_a_sleep.
Proof.
  apply (frame_of_measure seconds_slept). intros tr ev Hev.
  rewrite seconds_slept_snoc.
  destruct ev; simpl in *; solve [apply app_nil_r|contradiction].
Qed.

(** Computing the usage and handling a failure call nothing. *)
Lemma guarded_trace info (c : M State RawOutput) st :
  trace (snd (try_except
                (let* raw_output := c in
                 let* usage_stats := lift (calculate_usage info raw_output) in
                 ret {| data := generated_text raw_output;
                        raw_output := raw_output;
                        response_usage := usage_stats |})
                forward_except st))
  = trace (snd (c st)).
Proof.
  unfold try_except, bind, lift, ret.
  destruct (c st) as [[raw|exc] s1]; simpl.
  - destruct (calculate_usage info raw) as [u|e]; simpl; [reflexivity|].
    destruct (@forward_except_run ChatResponse e s1)
      as (s2 & Hrun & _ & Htr & _).
    rewrite Hrun. exact Htr.
  - destruct (@forward_except_run ChatResponse exc s1)
      as (s2 & Hrun & _ & Htr & _).
    rewrite Hrun. exact Htr.
Qed.

(** The events of an attempt are those of its inference path. *)
Lemma attempt_trace info model_id use_local hf_kwargs st :
  trace (snd (attempt info model_id use_local hf_kwargs st))
  = trace (snd ((if truthy use_local
                 then local_inference model_id hf_kwargs
                 else remote_inference model_id hf_kwargs) st)).
Proof. unfold attempt. destruct (truthy use_local); apply guarded_trace. Qed.

Lemma local_inference_calls model_id hf_kwargs :
  steps same_calls (local_inference model_id hf_kwargs).
Proof.
  apply (steps_local_inference _ _ frame_calls); intros; try exact I.
  reflexivity.
Qed.

Lemma remote_inference_calls model_id hf_kwargs st :
  (calls (trace (snd (remote_inference model_id hf_kwargs st)))
   <= calls (trace st) + 1)%nat.
Proof.
  unfold remote_inference, pop_required, pop. simpl.
  destruct (delete "timeout" hf_kwargs !! "prompt") as [pv|];
    [|simpl; lia].
  unfold bind at 1. unfold ret at 1.
  destruct (delete "prompt" (delete "timeout" hf_kwargs) !! "model");
    [simpl; lia|].
  unfold bind at 1. unfold extern at 1.
  destruct (client_text_generation _ _ _ (world st)) as [[response|exc] w];
    simpl.
  - match goal with
    | |- context [make_raw_output ?a ?b ?c ?s] =>
        pose proof (steps_make_raw_output _ _ frame_calls
                      (fun _ => I) (fun _ => I) (fun _ => I) a b c s) as Hm
    end.
    unfold same_calls in Hm. rewrite Hm. simpl. rewrite calls_snoc. simpl. lia.
  - rewrite calls_snoc. simpl. lia.
Qed.

Lemma forward_body_calls request st :
  (calls (trace (snd (forward_body request st))) <= calls (trace st) + 1)%nat.
Proof.
  destruct (prompt request) as [[|c p]|] eqn:Hp;
    try (rewrite forward_body_empty_prompt by auto; simpl; lia).
  destruct (merged_kwargs (String c p) request) as [kw|e0] eqn:Hm.
  - rewrite (forward_body_attempt request st (String c p) kw Hp) by
      (assumption || discriminate).
    rewrite attempt_trace.
    assert (Hin : calls (trace (entered st (String c p))) = calls (trace st)).
    { exact (steps_normalize _ _ frame_calls (fun _ => I) _
                 (add_log (invoked_record st (String c p)) st)). }
    destruct (truthy _).
    + rewrite (local_inference_calls _ _ (entered st (String c p))). lia.
    + pose proof (remote_inference_calls (resolved st)
                    (delete "use_local_model" kw) (entered st (String c p))).
      lia.
  - apply merged_kwargs_raises in Hm as (n & Hn & Hle & ->).
    rewrite (forward_body_bad_max_tokens request st (String c p) n) by
      (assumption || discriminate).
    simpl. lia.
Qed.

(** X5.  One attempt calls the inference endpoint at most once, and a call
    of [forward], with its retries, at most three times. *)
Theorem forward_calls_endpoint_at_most_thrice (request : ChatRequest)
    (st : State) :
  (calls (trace (snd (forward_body request st))) <= calls (trace st) + 1)%nat
  /\ (calls (trace (snd (forward request st))) <= calls (trace st) + 3)%nat.
Proof.
  split; [apply forward_body_calls|].
  rewrite forward_unfold.
  pose proof (forward_body_calls request st) as H1.
  destruct (forward_body request st) as [[r|e1] s1]; simpl in *; [lia|].
  pose proof (forward_body_calls request (sleep 1 s1)) as H2.
  simpl in H2. rewrite calls_snoc in H2. simpl in H2.
  destruct (forward_body request (sleep 1 s1)) as [[r|e2] s2]; simpl in *;
    [lia|].
  pose proof (forward_body_calls request (sleep 2 s2)) as H3.
  simpl in H3. rewrite calls_snoc in H3. simpl in H3. lia.
Qed.

Lemma forward_body_sleeps request : steps same_sleeps (forward_body request).
Proof.
  apply (steps_forward_body _ _ frame_sleeps).
  - intros ev. destruct ev; exact I.
  - reflexivity.
Qed.

(** X6.  The body of [forward] never sleeps.  The decorated [forward]
    sleeps only between attempts: not at all when the first attempt
    succeeds, 1 time-unit when the second does, and 1 then 2 time-units
    otherwise; every failure of [forward], whatever its kind, has taken the
    three attempts and both sleeps. *)
Theorem forward_sleeps_between_attempts (request : ChatRequest) (st : State) :
  seconds_slept (trace (snd (forward_body request st)))
  = seconds_slept (trace st)
  /\ exists slept,
      seconds_slept (trace (snd (forward request st)))
      = (seconds_slept (trace st) ++ slept)%list
      /\ (slept = [] \/ slept = [1] \/ slept = [1; 2])
      /\ (is_ok (fst (forward_body request st)) = true -> slept = [])
      /\ (is_ok (fst (forward request st)) = false -> slept = [1; 2]).
Proof.
  split; [apply forward_body_sleeps|].
  rewrite forward_unfold.
  pose proof (forward_body_sleeps request st) as H1. unfold same_sleeps in H1.
  destruct (forward_body request st) as [[r|e1] s1]; simpl in *.
  { exists []. rewrite app_nil_r. repeat split; auto; discriminate. }
  pose proof (forward_body_sleeps request (sleep 1 s1)) as H2.
  unfold same_sleeps in H2. simpl in H2.
  rewrite seconds_slept_snoc, H1 in H2.
  destruct (forward_body request (sleep 1 s1)) as [[r|e2] s2]; simpl in *.
  { exists [1]. repeat split; auto; discriminate. }
  pose proof (forward_body_sleeps request (sleep 2 s2)) as H3.
  unfold same_sleeps in H3. simpl in H3.
  rewrite seconds_slept_snoc, H2, <- app_assoc in H3.
  exists [1; 2]. repeat split; auto. discriminate.
Qed.

(** *** What a successful response carries *)

(** [returns Q c]: whatever [c] returns satisfies [Q]. *)
Definition returns {A} (Q : A -> Prop) (c : M State A) : Prop :=
  forall st a st', c st = (Ok a, st') -> Q a.

Lemma returns_ret {A} (Q : A -> Prop) a : Q a -> returns Q (ret a).
Proof. intros Ha st b st' Heq. inversion Heq; subst. exact Ha. Qed.

Lemma returns_raise {A} (Q : A -> Prop) e : returns Q (@raise State A e).
Proof. intros st b st' Heq. discriminate Heq. Qed.

Lemma returns_bind {A B} (Q1 : A -> Prop) (Q : B -> Prop)
    (c : M State A) (k : A -> M State B) :
  returns Q1 c -> (forall a, Q1 a -> returns Q (k a)) -> returns Q (bind c k).
Proof.
  intros Hc Hk st b st'. unfold bind.
  destruct (c st) as [[a|e] s] eqn:Hcs; [|discriminate].
  intros Hks. exact (Hk a (Hc _ _ _ Hcs) _ _ _ Hks).
Qed.

Lemma returns_anything {A} (c : M State A) : returns (fun _ => True) c.
Proof. intros st a st' _. exact I. Qed.

Lemma returns_try_except {A} (Q : A -> Prop) (body : M State A) handler :
  returns Q body -> (forall e, returns Q (handler e)) ->
  returns Q (try_except body handler).
Proof.
  intros Hb Hh st a st'. unfold try_except.
  destruct (body st) as [[b|e] s] eqn:Hbs.
  - intros Heq; inversion Heq; subst. exact (Hb _ _ _ Hbs).
  - apply Hh.
Qed.

Lemma returns_forward_except {A} (Q : A -> Prop) exc :
  returns Q (@forward_except _ A exc).
Proof.
  intros st a st' Heq. pose proof (@forward_except_raises A exc st) as Hr.
  rewrite Heq in Hr. discriminate Hr.
Qed.

Lemma count_tokens_not_negative text : returns (fun n => 0 <= n) (_count_tokens text).
Proof.
  intros st n st'. unfold _count_tokens, try_except.
  destruct (count_with_tokenizer text st) as [[k|e] s] eqn:Hc.
  - intros Heq; inversion Heq; subst.
    apply count_with_tokenizer_ok in Hc as (tk & tokens & w & w' & _ & _ & ->).
    lia.
  - run. destruct text; intros Heq; inversion Heq. lia.
Qed.

(** A raw output as both paths build it: the text, the model and the two
    counts, none of them negative. *)
Definition well_formed (generated model_id : string) (raw : RawOutput) : Prop :=
  exists p c,
    0 <= p /\ 0 <= c
    /\ raw = {| generated_text := generated; model := model_id;
                usage := Some {| usage_prompt_tokens := Some p;
                                 usage_completion_tokens := Some c |} |}.

Lemma make_raw_output_well_formed prompt generated model_id :
  returns (well_formed generated model_id)
          (make_raw_output prompt generated model_id).
Proof.
  unfold make_raw_output.
  apply (returns_bind (fun n => 0 <= n)); [apply count_tokens_not_negative|].
  intros p Hp.
  apply (returns_bind (fun n => 0 <= n)); [apply count_tokens_not_negative|].
  intros c Hc. apply returns_ret. exists p, c. auto.
Qed.

Definition built_for (model_id : string) (raw : RawOutput) : Prop :=
  well_formed (generated_text raw) model_id raw.

Lemma well_formed_built generated model_id raw :
  well_formed generated model_id raw -> built_for model_id raw.
Proof. intros (p & c & Hp & Hc & ->). exists p, c. auto. Qed.

Lemma make_raw_output_built prompt generated model_id :
  returns (built_for model_id) (make_raw_output prompt generated model_id).
Proof.
  intros st raw st' Hrun. eapply well_formed_built.
  exact (make_raw_output_well_formed _ _ _ _ _ _ Hrun).
Qed.

Ltac returns_tail :=
  repeat match goal with
    | |- returns _ (raise _) => apply returns_raise
    | |- returns _ (make_raw_output _ _ _) => apply make_raw_output_built
    | |- returns _ (bind _ _) =>
        apply (returns_bind (fun _ => True)); [apply returns_anything|intros ? _]
    | |- returns _ (let '(_, _) := ?x in _) => destruct x
    | |- returns _ (match ?x with _ => _ end) => destruct x
    end.

Lemma remote_inference_built model_id hf_kwargs :
  returns (built_for model_id) (remote_inference model_id hf_kwargs).
Proof. unfold remote_inference, pop. simpl. returns_tail. Qed.

Lemma local_inference_built model_id hf_kwargs :
  returns (built_for model_id) (local_inference model_id hf_kwargs).
Proof. unfold local_inference, pop. simpl. returns_tail. Qed.

(** A response whose usage is that of its raw output under the cost
    schedule of [info], and whose text is the generated text. *)
Definition consistent (info : ModelInfo) (response : ChatResponse) : Prop :=
  exists p c,
    0 <= p < float_limit /\ 0 <= c < float_limit
    /\ usage (raw_output response)
       = Some {| usage_prompt_tokens := Some p;
                 usage_completion_tokens := Some c |}
    /\ data response = generated_text (raw_output response)
    /\ (model (raw_output response) = strip_provider_prefix (name info)
        \/ model (raw_output response) = default_model)
    /\ response_usage response
       = {| total_tokens := p + c; prompt_tokens := p; completion_tokens := c;
            cost_usd := spec_cost_usd p c (cost info) |}.

Lemma calculate_usage_of_built info model_id raw u :
  built_for model_id raw ->
  calculate_usage info raw = Ok u ->
  exists p c,
    0 <= p < float_limit /\ 0 <= c < float_limit
    /\ usage raw = Some {| usage_prompt_tokens := Some p;
                           usage_completion_tokens := Some c |}
    /\ model raw = model_id
    /\ u = {| total_tokens := p + c; prompt_tokens := p; completion_tokens := c;
              cost_usd := spec_cost_usd p c (cost info) |}.
Proof.
  intros (p & c & Hp & Hc & Hraw). rewrite Hraw.
  unfold calculate_usage, int_to_float. simpl.
  destruct (Z.ltb_spec (Z.abs p) float_limit); [|discriminate].
  destruct (Z.ltb_spec (Z.abs c) float_limit); [|discriminate].
  intros Heq; inversion Heq; subst. exists p, c.
  repeat split; auto; lia.
Qed.

Lemma attempt_consistent (st0 : State) model_id use_local hf_kwargs :
  model_id = strip_provider_prefix (name (model_info st0))
  \/ model_id = default_model ->
  returns (consistent (model_info st0))
          (attempt (model_info st0) model_id use_local hf_kwargs).
Proof.
  intros Hmodel. unfold attempt.
  apply returns_try_except; [|intros e; apply returns_forward_except].
  apply (returns_bind (built_for model_id)).
  { destruct (truthy use_local);
      [apply local_inference_built|apply remote_inference_built]. }
  intros raw Hraw st u' st'. unfold bind, lift, ret.
  destruct (calculate_usage (model_info st0) raw) as [u|e] eqn:Hu;
    [|discriminate].
  intros Heq; inversion Heq; subst. simpl.
  destruct (calculate_usage_of_built _ _ _ _ Hraw Hu)
    as (p & c & Hp & Hc & Husage & Hm & ->).
  exists p, c. simpl. rewrite Hm.
  split; [exact Hp|]. split; [exact Hc|]. split; [exact Husage|].
  split; [reflexivity|]. split; [exact Hmodel|reflexivity].
Qed.

Lemma resolved_is_name_or_default (st : State) :
  resolved st = strip_provider_prefix (name (model_info st))
  \/ resolved st = default_model.
Proof. unfold resolved. destruct (is_ok _); auto. Qed.

Lemma forward_body_consistent (request : ChatRequest) (st : State)
    response st' :
  forward_body request st = (Ok response, st') ->
  consistent (model_info st) response.
Proof.
  destruct (prompt request) as [[|c p]|] eqn:Hp;
    try (rewrite forward_body_empty_prompt by auto; discriminate).
  destruct (merged_kwargs (String c p) request) as [kw|e0] eqn:Hm.
  - rewrite (forward_body_attempt request st (String c p) kw Hp) by
      (assumption || discriminate).
    apply attempt_consistent, resolved_is_name_or_default.
  - apply merged_kwargs_raises in Hm as (n & Hn & Hle & ->).
    rewrite (forward_body_bad_max_tokens request st (String c p) n) by
      (assumption || discriminate).
    discriminate.
Qed.

Definition same_info (st st' : State) : Prop := model_info st' = model_info st.

Lemma frame_info : frame same_info (fun _ => True).
Proof. split; try reflexivity; unfold same_info; intros; congruence. Qed.

Lemma forward_body_info request : steps same_info (forward_body request).
Proof.
  apply (steps_forward_body _ _ frame_info).
  - intros ev. destruct ev; exact I.
  - reflexivity.
Qed.


(** X7.  A response that [forward] returns is consistent: its text is the
    generated text of its raw output; the raw output names the model the
    call used (the adapter's model name without its provider prefix, or the
    default model) and carries both token counts, neither negative; and the
    usage holds those counts, their sum and the cost that the adapter's
    schedule gives them. *)
Theorem forward_response_is_consistent (request : ChatRequest) (st : State)
    response st' :
  forward request st = (Ok response, st') ->
  consistent (model_info st) response.
Proof.
  rewrite forward_unfold.
  pose proof (forward_body_info request st) as I1. unfold same_info in I1.
  destruct (forward_body request st) as [[r|e1] s1] eqn:H1.
  { intros Heq; inversion Heq; subst.
    exact (forward_body_consistent request st _ _ H1). }
  simpl in I1.
  pose proof (forward_body_info request (sleep 1 s1)) as I2.
  unfold same_info in I2. simpl in I2.
  destruct (forward_body request (sleep 1 s1)) as [[r|e2] s2] eqn:H2.
  { intros Heq; inversion Heq; subst.
    assert (Hinfo : model_info (sleep 1 s1) = model_info st) by exact I1.
    rewrite <- Hinfo.
    exact (forward_body_consistent request (sleep 1 s1) _ _ H2). }
  simpl in I2. intros H3.
  assert (Hinfo : model_info (sleep 2 s2) = model_info st)
    by (simpl; congruence).
  rewrite <- Hinfo.
  exact (forward_body_consistent request (sleep 2 s2) _ _ H3).
Qed.

(** *** What the endpoint is called with *)

(** [adds P st st']: from [st] to [st'] the trace has only grown, by events
    that [P] accepts. *)
Definition adds (P : Event -> Prop) (st st' : State) : Prop :=
  exists evs, trace st' = (trace st ++ evs)%list /\ Forall P evs.

Lemma frame_adds (P : Event -> Prop) : frame (adds P) P.
Proof.
  split.
  - intros st. exists []. rewrite app_nil_r. auto.
  - intros a b c (e1 & H1 & F1) (e2 & H2 & F2). exists (e1 ++ e2)%list.
    rewrite H2, H1, <- app_assoc. split; [reflexivity|].
    apply Forall_app. auto.
  - intros st r. exists []. simpl. rewrite app_nil_r. auto.
  - intros st t. exists []. simpl. rewrite app_nil_r. auto.
  - intros ev Hev st w. exists [ev]. simpl. auto.
Qed.

Lemma merged_kwargs_override (request : ChatRequest) (request_prompt : string)
    (hf_kwargs : gmap string value) (key : string) (v : value) :
  merged_kwargs request_prompt request = Ok hf_kwargs ->
  provider_params request !! key = Some v ->
  is_none v = false ->
  hf_kwargs !! key = Some v.
Proof.
  unfold merged_kwargs.
  destruct (HuggingFaceChatParameters_init _ _ _ _ _); [|discriminate].
  intros Heq Hv Hn; inversion Heq; subst.
  rewrite lookup_update, lookup_not_none_items, Hv, Hn. reflexivity.
Qed.

(** X8.  On the remote path, whatever the endpoint then does, the first
    thing an attempt does after resolving the model is to call the endpoint,
    once: with the prompt built from the request (or the ["prompt"] that the
    provider parameters give instead), the resolved model, and the merged
    keyword arguments without ["prompt"], ["timeout"] and
    ["use_local_model"]. *)
Theorem remote_call_is_what_is_sent (request : ChatRequest) (st : State)
    (request_prompt : string) (hf_kwargs : gmap string value) :
  prompt request = Some request_prompt ->
  request_prompt <> EmptyString ->
  merged_kwargs request_prompt request = Ok hf_kwargs ->
  truthy (default (VBool false) (hf_kwargs !! "use_local_model")) = false ->
  hf_kwargs !! "model" = None ->
  exists rest,
    trace (snd (forward_body request st))
    = (trace (entered st request_prompt)
         ++ EvTextGeneration (sent_prompt request request_prompt) (resolved st)
                             (sent_kwargs hf_kwargs) :: rest)%list
    /\ Forall not_a_call rest
    /\ sent_kwargs hf_kwargs !! "timeout" = None
    /\ sent_kwargs hf_kwargs !! "use_local_model" = None
    /\ forall key, key <> "prompt" -> key <> "timeout" ->
                   key <> "use_local_model" ->
                   sent_kwargs hf_kwargs !! key = hf_kwargs !! key.
Proof.
  intros Hp Hne Hm Hl Hmodel.
  rewrite (forward_body_attempt request st request_prompt hf_kwargs Hp Hne Hm).
  rewrite (attempt_remote_call _ _ _ _ (sent_prompt request request_prompt))
    by (try assumption; rewrite lookup_delete_ne by discriminate;
        eauto using merged_kwargs_prompt).
  change (delete "prompt" (delete "timeout" (delete "use_local_model" hf_kwargs)))
    with (sent_kwargs hf_kwargs).
  assert (Hkeys : sent_kwargs hf_kwargs !! "timeout" = None
                  /\ sent_kwargs hf_kwargs !! "use_local_model" = None
                  /\ forall key, key <> "prompt" -> key <> "timeout" ->
                       key <> "use_local_model" ->
                       sent_kwargs hf_kwargs !! key = hf_kwargs !! key).
  { unfold sent_kwargs. split; [|split].
    - rewrite lookup_delete_ne by discriminate. apply lookup_delete_eq.
    - rewrite !lookup_delete_ne by discriminate. apply lookup_delete_eq.
    - intros key H1 H2 H3. rewrite !lookup_delete_ne by congruence.
      reflexivity. }
  destruct (client_text_generation _ _ _ _) as [[response|exc] w].
  - rewrite guarded_trace.
    match goal with
    | |- context [make_raw_output ?a ?b ?c ?s] =>
        destruct (steps_make_raw_output _ _ (frame_adds not_a_call)
                    (fun _ => I) (fun _ => I) (fun _ => I) a b c s)
          as (rest & Htr & Hrest)
    end.
    exists rest. rewrite Htr. simpl. rewrite <- app_assoc.
    split; [reflexivity|]. split; [exact Hrest|exact Hkeys].
  - exists []. split; [|split; [constructor|exact Hkeys]].
    match goal with
    | |- context [forward_except exc ?s] =>
        destruct (@forward_except_run ChatResponse exc s)
          as (st' & Hrun & _ & Htr & _)
    end.
    rewrite Hrun. simpl. rewrite Htr. reflexivity.
Qed.

(** The error of a call of the endpoint that gives [model] twice. *)
Definition duplicate_model : exn :=
  TypeError (text_generation_name
               +:+ "() got multiple values for keyword argument 'model'").

(** X9.  Provider parameters that carry a ["model"] make every remote
    attempt fail before the endpoint is called: the keyword would be given
    twice, and the [TypeError] of that call, which names the endpoint
    method and the keyword, is wrapped like any other error, as the cause
    of a provider API error. *)
Theorem provider_model_fails_remote_call (request : ChatRequest) (st : State)
    (request_prompt : string) (hf_kwargs : gmap string value) (v : value) :
  prompt request = Some request_prompt ->
  request_prompt <> EmptyString ->
  merged_kwargs request_prompt request = Ok hf_kwargs ->
  truthy (default (VBool false) (hf_kwargs !! "use_local_model")) = false ->
  provider_params request !! "model" = Some v ->
  is_none v = false ->
  exists st',
    forward_body request st
    = (Raise (ProviderAPIError "HuggingFace"
                ("API error: " +:+ text_generation_name
                   +:+ "() got multiple values for keyword argument 'model'")
                duplicate_model), st')
    /\ trace st' = trace (entered st request_prompt)
    /\ world st' = world (entered st request_prompt).
Proof.
  intros Hp Hne Hm Hl Hv Hn.
  rewrite (forward_body_attempt request st request_prompt hf_kwargs Hp Hne Hm).
  unfold attempt. rewrite Hl.
  unfold remote_inference, pop_required, pop. simpl.
  rewrite lookup_delete_ne by discriminate.
  rewrite lookup_delete_ne by discriminate.
  rewrite (merged_kwargs_prompt _ _ _ Hm).
  unfold try_except, bind, ret, raise. simpl.
  rewrite !lookup_delete_ne by discriminate.
  rewrite (merged_kwargs_override _ _ _ "model" v Hm Hv Hn). simpl.
  run. eexists. split; [reflexivity|]. split; reflexivity.
Qed.

(** *** The cached local model and tokenizer *)

Definition is_load (ev : Event) : bool :=
  match ev with EvModelLoad _ | EvPipeline => true | _ => false end.

(** Number of model loads and pipeline constructions in a trace. *)
Definition loads (tr : list Event) : nat := length (List.filter is_load tr).

Definition not_a_load (ev : Event) : Prop :=
  match ev with EvModelLoad _ | EvPipeline => False | _ => True end.

Lemma loads_snoc tr ev :
  loads (tr ++ [ev]) = (loads tr + if is_load ev then 1 else 0)%nat.
Proof.
  unfold loads. rewrite List.filter_app, length_app. simpl.
  destruct (is_load ev); reflexivity.
Qed.

(** From a state that holds the local model [m]: [m] is still held and
    nothing was loaded. *)
Definition keeps_model (m : Pipeline) (st st' : State) : Prop :=
  _local_model st = Some m ->
  _local_model st' = Some m /\ loads (trace st') = loads (trace st).

Lemma frame_keeps_model m : frame (keeps_model m) not_a_load.
Proof.
  split; unfold keeps_model.
  - auto.
  - intros a b c Hab Hbc Ha. destruct (Hab Ha) as [Hb Lb].
    destruct (Hbc Hb) as [Hc Lc]. split; [exact Hc|congruence].
  - intros st r Hm. simpl. auto.
  - intros st t Hm. simpl. auto.
  - intros ev Hev st w Hm. simpl. split; [exact Hm|].
    rewrite loads_snoc. destruct ev; simpl in *; lia.
Qed.

Lemma local_inference_keeps_model m model_id hf_kwargs :
  steps (keeps_model m) (local_inference model_id hf_kwargs).
Proof.
  intros st Hm.
  remember (local_inference model_id hf_kwargs st) as run eqn:Hrun.
  unfold local_inference in Hrun.
  unfold bind at 1 in Hrun. unfold get at 1 in Hrun. cbv beta iota in Hrun.
  rewrite Hm in Hrun.
  unfold bind at 1 in Hrun. unfold ret at 1 in Hrun. cbv beta iota in Hrun.
  match type of Hrun with
  | _ = ?c st => assert (Hc : steps (keeps_model m) c)
  end.
  { unfold pop_required, pop. simpl.
    pose proof (frame_keeps_model m) as F. steps_using F. }
  rewrite Hrun. exact (Hc st Hm).
Qed.

Lemma remote_inference_keeps_model m model_id hf_kwargs :
  steps (keeps_model m) (remote_inference model_id hf_kwargs).
Proof.
  apply (steps_remote_inference _ _ (frame_keeps_model m)); intros; exact I.
Qed.

(** X10.  A local model that the adapter holds is kept by [forward], on
    either path and across retries, and is not loaded again: no model is
    loaded and no pipeline is built. *)
Theorem forward_keeps_local_model (m : Pipeline) (request : ChatRequest)
    (st : State) :
  _local_model st = Some m ->
  _local_model (snd (forward request st)) = Some m
  /\ loads (trace (snd (forward request st))) = loads (trace st).
Proof.
  revert st.
  change (steps (keeps_model m) (forward request)).
  apply (steps_forward_from _ _ (frame_keeps_model m)).
  - intros st n Hm. simpl. split; [exact Hm|].
    rewrite loads_snoc. simpl. lia.
  - apply (steps_forward_body_from _ _ (frame_keeps_model m) (fun _ => I)).
    + intros model_id kw. apply local_inference_keeps_model.
    + intros model_id kw. apply remote_inference_keeps_model.
Qed.

Lemma count_with_cached_tokenizer (text : value) (st : State) (tk : Tokenizer) :
  tokenizer st = Some tk ->
  count_with_tokenizer text st
  = match tokenizer_encode tk text (world st) with
    | (Ok tokens, w) =>
        (Ok (Z.of_nat (length tokens)),
         set_world w (add_event (EvEncode text) st))
    | (Raise e, w) => (Raise e, set_world w (add_event (EvEncode text) st))
    end.
Proof.
  intros Htk. unfold count_with_tokenizer. run. rewrite Htk.
  destruct (tokenizer_encode tk text (world st)) as [[tokens|e] w];
    reflexivity.
Qed.

Lemma count_with_loaded_tokenizer (text : value) (st : State)
    (model_id : string) (s1 : State) (tk : Tokenizer) (w : World) :
  tokenizer st = None ->
  _normalize_huggingface_model_name (name (model_info st)) st
  = (Ok model_id, s1) ->
  AutoTokenizer_from_pretrained model_id (world s1) = (Ok tk, w) ->
  let loaded :=
    set_tokenizer (Some tk)
      (set_world w (add_event (EvTokenizerLoad model_id) s1)) in
  count_with_tokenizer text st
  = match tokenizer_encode tk text w with
    | (Ok tokens, w2) =>
        (Ok (Z.of_nat (length tokens)),
         set_world w2 (add_event (EvEncode text) loaded))
    | (Raise e, w2) =>
        (Raise e, set_world w2 (add_event (EvEncode text) loaded))
    end.
Proof.
  intros Hnone Hn Hload loaded. unfold count_with_tokenizer.
  unfold bind at 1. unfold get at 1. cbv beta iota. rewrite Hnone.
  unfold bind at 1. unfold bind at 1. rewrite Hn.
  unfold bind at 1. unfold extern at 1. rewrite Hload.
  run. destruct (tokenizer_encode tk text w) as [[tokens|e] w2]; reflexivity.
Qed.

(** X11.  With a tokenizer at hand, [_count_tokens] uses it and makes no
    other call: the tokenizer is encoded with once, the catalogue is not
    queried and nothing is loaded.  Without one, it resolves the model name
    and loads the tokenizer, and a tokenizer that loads stays with the
    adapter whether or not the count then succeeds. *)
Theorem count_tokens_loads_tokenizer_once (text : value) (st : State) :
  (forall tk, tokenizer st = Some tk ->
     tokenizer (snd (_count_tokens text st)) = Some tk
     /\ trace (snd (_count_tokens text st))
        = (trace st ++ [EvEncode text])%list)
  /\ (tokenizer st = None ->
      let named := _normalize_huggingface_model_name (name (model_info st)) st in
      forall model_id tk w,
        fst named = Ok model_id ->
        AutoTokenizer_from_pretrained model_id (world (snd named)) = (Ok tk, w) ->
        tokenizer (snd (_count_tokens text st)) = Some tk
        /\ trace (snd (_count_tokens text st))
           = (trace (snd named) ++ [EvTokenizerLoad model_id; EvEncode text])%list).
Proof.
  split.
  - intros tk Htk. unfold _count_tokens, try_except.
    rewrite (count_with_cached_tokenizer text st tk Htk).
    destruct (tokenizer_encode tk text (world st)) as [[tokens|e] w]; simpl.
    + rewrite Htk. auto.
    + run. destruct text; simpl; rewrite Htk; auto.
  - intros Hnone named model_id tk w Hname Hload.
    destruct named as [r s1] eqn:Hn. simpl in Hname, Hload. subst r.
    unfold _count_tokens, try_except.
    rewrite (count_with_loaded_tokenizer text st model_id s1 tk w Hnone Hn Hload).
    destruct (tokenizer_encode tk text w) as [[tokens|e] w2]; simpl.
    + rewrite <- app_assoc. auto.
    + run. destruct text; simpl; rewrite <- app_assoc; auto.
Qed.

(** *** The local path *)

(** The keyword arguments handed to the local pipeline beside the prompt. *)
Definition pipeline_kwargs (hf_kwargs : gmap string value)
  : gmap string value :=
  let kw1 := delete "prompt" hf_kwargs in
  let kw2 := delete "max_new_tokens" kw1 in
  <["max_new_tokens" := default (VInt 512) (kw1 !! "max_new_tokens")]>
    (<["temperature" := default (VFloat 0.7) (kw2 !! "temperature")]>
       (delete "temperature" kw2)).

(** The generated text once the echo of the prompt is removed. *)
Definition strip_echo (prompt generated : string) : string :=
  if startswith prompt generated
  then lstrip (slice_from (String.length prompt) generated)
  else generated.

Lemma startswith_append (p tail : string) : startswith p (p +:+ tail) = true.
Proof.
  unfold startswith. induction p as [|c p IH]; simpl.
  - destruct tail; reflexivity.
  - destruct (ascii_dec c c); [exact IH|congruence].
Qed.

Lemma length_append (p tail : string) :
  String.length (p +:+ tail) = (String.length p + String.length tail)%nat.
Proof. induction p as [|c p IH]; simpl; [reflexivity|now rewrite IH]. Qed.

Lemma slice_from_append (p tail : string) :
  slice_from (String.length p) (p +:+ tail) = tail.
Proof.
  unfold slice_from. rewrite length_append.
  replace (String.length p + String.length tail - String.length p)%nat
    with (String.length tail) by lia.
  induction p as [|c p IH]; simpl; [apply substring_full|exact IH].
Qed.

Lemma strip_echo_of_echo (p tail : string) :
  strip_echo p (p +:+ tail) = lstrip tail.
Proof.
  unfold strip_echo. now rewrite startswith_append, slice_from_append.
Qed.

Lemma lstrip_starts_with_text (s : string) :
  match lstrip s with
  | EmptyString => True
  | String c _ => isspace c = false
  end.
Proof.
  induction s as [|c s IH]; simpl; [exact I|].
  destruct (isspace c) eqn:Hc; [exact IH|exact Hc].
Qed.

Lemma count_tokens_of_str_returns (s : string) (st : State) :
  exists n st', _count_tokens (VStr s) st = (Ok n, st').
Proof.
  unfold _count_tokens, try_except.
  destruct (count_with_tokenizer (VStr s) st) as [[k|e] s1].
  - eexists _, _. reflexivity.
  - run. eexists _, _. reflexivity.
Qed.

Lemma make_raw_output_of_str_returns (ps generated model_id : string) st :
  exists raw st',
    make_raw_output (VStr ps) generated model_id st = (Ok raw, st')
    /\ generated_text raw = generated /\ model raw = model_id.
Proof.
  unfold make_raw_output, bind.
  destruct (count_tokens_of_str_returns ps st) as (p & s1 & ->).
  destruct (count_tokens_of_str_returns generated s1) as (c & s2 & ->).
  eexists _, _. split; [reflexivity|]. simpl. auto.
Qed.

(** X12.  On the local path, with the model at hand and a textual prompt,
    the pipeline is called with every keyword argument but the prompt,
    [max_new_tokens] and [temperature] being 512 and 0.7 when absent; when
    it returns a list whose first element carries a generated text, the
    attempt's text is that text without the leading echo of the prompt and
    the whitespace that follows it, and that text as it is when it does not
    start with the prompt. *)
Theorem local_path_strips_echo (model_id : string)
    (hf_kwargs : gmap string value) (st : State) (m : Pipeline)
    (ps generated : string) (d : gmap string value) (l : list value)
    (w : World) :
  _local_model st = Some m ->
  hf_kwargs !! "prompt" = Some (VStr ps) ->
  pipeline_call m (VStr ps) (pipeline_kwargs hf_kwargs) (world st)
  = (Ok (PList (VDict d :: l)), w) ->
  d !! "generated_text" = Some (VStr generated) ->
  (exists raw st',
      local_inference model_id hf_kwargs st = (Ok raw, st')
      /\ generated_text raw = strip_echo ps generated
      /\ model raw = model_id
      /\ (forall tail, generated = ps +:+ tail ->
                       generated_text raw = lstrip tail)
      /\ (startswith ps generated = false -> generated_text raw = generated))
  /\ pipeline_kwargs hf_kwargs !! "prompt" = None
  /\ pipeline_kwargs hf_kwargs !! "max_new_tokens"
     = Some (default (VInt 512) (hf_kwargs !! "max_new_tokens"))
  /\ pipeline_kwargs hf_kwargs !! "temperature"
     = Some (default (VFloat 0.7) (hf_kwargs !! "temperature"))
  /\ (forall key, key <> "prompt" -> key <> "max_new_tokens" ->
                  key <> "temperature" ->
                  pipeline_kwargs hf_kwargs !! key = hf_kwargs !! key).
Proof.
  intros Hm Hp Hcall Hd. split.
  - remember (local_inference model_id hf_kwargs st) as run eqn:Hrun.
    unfold local_inference in Hrun.
    unfold bind at 1 in Hrun. unfold get at 1 in Hrun. cbv beta iota in Hrun.
    rewrite Hm in Hrun.
    unfold bind at 1 in Hrun. unfold ret at 1 in Hrun. cbv beta iota in Hrun.
    unfold pop_required in Hrun. rewrite Hp in Hrun.
    unfold bind at 1 in Hrun. unfold ret at 1 in Hrun. cbv beta iota in Hrun.
    unfold pop in Hrun. cbv beta iota zeta in Hrun.
    unfold bind at 1 in Hrun. unfold extern at 1 in Hrun.
    change (<["max_new_tokens":=_]> _) with (pipeline_kwargs hf_kwargs) in Hrun.
    rewrite Hcall in Hrun. cbv beta iota in Hrun.
    rewrite Hd in Hrun. simpl default in Hrun. cbv beta iota in Hrun.
    unfold bind at 1 in Hrun. unfold ret at 1 in Hrun. cbv beta iota in Hrun.
    fold (strip_echo ps generated) in Hrun.
    match type of Hrun with
    | _ = make_raw_output _ _ _ ?s =>
        destruct (make_raw_output_of_str_returns ps (strip_echo ps generated)
                    model_id s) as (raw & st' & Hraw & Hg & Hmodel)
    end.
    rewrite Hraw in Hrun. exists raw, st'. subst run.
    split; [reflexivity|]. split; [exact Hg|]. split; [exact Hmodel|].
    split.
    + intros tail ->. rewrite Hg. apply strip_echo_of_echo.
    + intros Hno. rewrite Hg. unfold strip_echo. now rewrite Hno.
  - unfold pipeline_kwargs. cbv zeta. repeat split.
    + rewrite !lookup_insert_ne by discriminate.
      rewrite !lookup_delete_ne by discriminate. apply lookup_delete_eq.
    + rewrite lookup_insert_eq, lookup_delete_ne by discriminate. reflexivity.
    + rewrite lookup_insert_ne, lookup_insert_eq by discriminate.
      rewrite !lookup_delete_ne by discriminate. reflexivity.
    + intros key H1 H2 H3.
      rewrite !lookup_insert_ne, !lookup_delete_ne by congruence. reflexivity.
Qed.

Definition load_failure (exc : exn) : exn :=
  ProviderAPIError "HuggingFace"
                   ("Failed to load local model: " +:+ exn_str exc) exc.

Lemma local_inference_load_failure (model_id : string)
    (hf_kwargs : gmap string value) (st : State) (exc : exn) (w : World) :
  _local_model st = None ->
  AutoTokenizer_from_pretrained model_id (world st) = (Raise exc, w) ->
  exists st',
    local_inference model_id hf_kwargs st = (Raise (load_failure exc), st')
    /\ _local_model st' = None
    /\ tokenizer st' = tokenizer st
    /\ trace st' = (trace st ++ [EvTokenizerLoad model_id])%list.
Proof.
  intros Hnone Hload.
  remember (local_inference model_id hf_kwargs st) as run eqn:Hrun.
  unfold local_inference in Hrun.
  unfold bind at 1 in Hrun. unfold get at 1 in Hrun. cbv beta iota in Hrun.
  rewrite Hnone in Hrun.
  unfold bind at 1 in Hrun. unfold bind at 1 in Hrun.
  unfold _load_local_model in Hrun.
  unfold try_except at 1 in Hrun. unfold bind at 1 in Hrun.
  unfold logger at 1 in Hrun. unfold modify at 1 in Hrun.
  cbv beta iota in Hrun.
  unfold bind at 1 in Hrun. unfold extern at 1 in Hrun.
  simpl world in Hrun. rewrite Hload in Hrun. cbv beta iota in Hrun.
  unfold logger, bind, modify, raise in Hrun. simpl in Hrun.
  subst run. eexists. split; [reflexivity|]. simpl. rewrite Hnone. auto.
Qed.

(** X13.  On the local path of an adapter without a local model, a
    tokenizer that cannot be loaded makes the attempt fail before any model
    is loaded: the caller gets a provider API error whose cause is the
    provider API error of the loader, itself caused by the original
    exception; the adapter still has no local model, so that the next
    attempt loads again. *)
Theorem local_load_failure_is_wrapped_twice (info : ModelInfo)
    (model_id : string) (use_local : value) (hf_kwargs : gmap string value)
    (st : State) (exc : exn) (w : World) :
  truthy use_local = true ->
  _local_model st = None ->
  AutoTokenizer_from_pretrained model_id (world st) = (Raise exc, w) ->
  exists st',
    attempt info model_id use_local hf_kwargs st
    = (Raise (ProviderAPIError "HuggingFace"
                ("API error: Failed to load local model: " +:+ exn_str exc)
                (ProviderAPIError "HuggingFace"
                   ("Failed to load local model: " +:+ exn_str exc) exc)),
       st')
    /\ _local_model st' = None
    /\ tokenizer st' = tokenizer st
    /\ trace st' = (trace st ++ [EvTokenizerLoad model_id])%list.
Proof.
  intros Hl Hnone Hload.
  destruct (local_inference_load_failure model_id hf_kwargs st exc w
              Hnone Hload) as (s1 & Hrun & Hm & Htk & Htr).
  unfold attempt, try_except, bind. rewrite Hl, Hrun.
  destruct (@forward_except_run ChatResponse (load_failure exc) s1)
    as (st' & Hexc & _ & Htr' & _ & Htk' & Hm').
  rewrite Hexc. exists st'. split; [reflexivity|].
  split; [congruence|]. split; congruence.
Qed.

(** *** The answer of the endpoint *)

Definition overflow : exn :=
  OverflowError "int too large to convert to float".

Lemma calculate_usage_raises_overflow info raw e :
  calculate_usage info raw = Raise e -> e = overflow.
Proof.
  unfold calculate_usage, int_to_float, overflow.
  repeat match goal with
         | |- context [if ?b then _ else _] => destruct b
         end; intros Heq; inversion Heq; reflexivity.
Qed.

(** X14.  On the remote path, with a textual prompt, the text with which
    the endpoint answers is returned as it is: the attempt, and with it
    [forward] without any retry, returns a response whose data and
    generated text are that text and whose raw output names the resolved
    model.  The one way it can still fail is a token count beyond the
    binary64 range, which the cost computation cannot convert. *)
Theorem remote_answer_is_returned (request : ChatRequest) (st : State)
    (request_prompt : string) (hf_kwargs : gmap string value)
    (ps text : string) (w : World) :
  prompt request = Some request_prompt ->
  request_prompt <> EmptyString ->
  merged_kwargs request_prompt request = Ok hf_kwargs ->
  truthy (default (VBool false) (hf_kwargs !! "use_local_model")) = false ->
  hf_kwargs !! "model" = None ->
  sent_prompt request request_prompt = VStr ps ->
  client_text_generation (VStr ps) (resolved st) (sent_kwargs hf_kwargs)
                         (world (entered st request_prompt)) = (Ok text, w) ->
  (exists response st',
      forward_body request st = (Ok response, st')
      /\ forward request st = (Ok response, st')
      /\ data response = text
      /\ generated_text (raw_output response) = text
      /\ model (raw_output response) = resolved st)
  \/ (exists st',
         forward_body request st = (Raise (surfaced overflow), st')).
Proof.
  intros Hp Hne Hm Hl Hmodel Hps Hcall.
  rewrite forward_unfold.
  rewrite (forward_body_attempt request st request_prompt hf_kwargs Hp Hne Hm).
  rewrite (attempt_remote_call _ _ _ _ (VStr ps))
    by (try assumption; rewrite lookup_delete_ne by discriminate;
        try rewrite <- Hps; eauto using merged_kwargs_prompt).
  change (delete "prompt" (delete "timeout" (delete "use_local_model" hf_kwargs)))
    with (sent_kwargs hf_kwargs).
  rewrite Hcall. unfold try_except, bind.
  match goal with
  | |- context [make_raw_output (VStr ps) text ?m ?s] =>
      destruct (make_raw_output_of_str_returns ps text m s)
        as (raw & s1 & -> & Hg & Hmo)
  end.
  unfold lift.
  destruct (calculate_usage (model_info st) raw) as [u|e] eqn:Hu.
  - left. eexists _, _. split; [reflexivity|]. split; [reflexivity|].
    simpl. auto.
  - right. apply calculate_usage_raises_overflow in Hu. subst e.
    destruct (@forward_except_run ChatResponse overflow s1) as (st' & -> & _).
    exists st'. reflexivity.
Qed.
(** *** The first local call *)

(** Events of the local inference itself. *)
Definition inference_only (ev : Event) : Prop :=
  match ev with EvPipelineCall _ _ | EvEncode _ => True | _ => False end.

(** [holding pl tk st st']: [st'] holds the local model and the tokenizer,
    and from [st] the trace has grown by pipeline calls and encodings
    only. *)
Definition holding (pl : Pipeline) (tk : Tokenizer) (st st' : State) : Prop :=
  _local_model st' = Some pl /\ tokenizer st' = Some tk
  /\ exists evs, trace st' = (trace st ++ evs)%list /\ Forall inference_only evs.

Lemma holding_refl pl tk st :
  _local_model st = Some pl -> tokenizer st = Some tk -> holding pl tk st st.
Proof.
  intros Hm Ht. split; [exact Hm|]. split; [exact Ht|].
  exists []. rewrite app_nil_r. auto.
Qed.

Lemma holding_trans pl tk a b c :
  holding pl tk a b -> holding pl tk b c -> holding pl tk a c.
Proof.
  intros (_ & _ & e1 & H1 & F1) (Hm & Ht & e2 & H2 & F2).
  split; [exact Hm|]. split; [exact Ht|].
  exists (e1 ++ e2)%list. rewrite H2, H1, <- app_assoc.
  split; [reflexivity|]. apply Forall_app. auto.
Qed.

Lemma count_tokens_holding pl tk text st :
  _local_model st = Some pl -> tokenizer st = Some tk ->
  holding pl tk st (snd (_count_tokens text st)).
Proof.
  intros Hm Ht. unfold _count_tokens, try_except.
  rewrite (count_with_cached_tokenizer text st tk Ht).
  destruct (tokenizer_encode tk text (world st)) as [[tokens|e] w].
  - simpl. split; [exact Hm|]. split; [exact Ht|].
    exists [EvEncode text]. split; [reflexivity|]. repeat constructor.
  - run. destruct text; simpl; (split; [exact Hm|]); (split; [exact Ht|]);
      (eexists; split; [reflexivity|]); repeat constructor.
Qed.

Lemma make_raw_output_holding pl tk prompt generated model_id st :
  _local_model st = Some pl -> tokenizer st = Some tk ->
  holding pl tk st (snd (make_raw_output prompt generated model_id st)).
Proof.
  intros Hm Ht. unfold make_raw_output, bind.
  pose proof (count_tokens_holding pl tk prompt st Hm Ht) as H1.
  destruct (_count_tokens prompt st) as [[p|e] s1]; [|exact H1].
  simpl in H1. destruct H1 as (Hm1 & Ht1 & Hev1).
  pose proof (count_tokens_holding pl tk (VStr generated) s1 Hm1 Ht1) as H2.
  destruct (_count_tokens (VStr generated) s1) as [[c|e] s2];
    simpl in *; eapply holding_trans; try exact H2;
    (split; [exact Hm1|]; split; [exact Ht1|exact Hev1]).
Qed.

(** X15.  The first call on the local path loads the tokenizer, the model
    and the pipeline, in that order and once, when the three loaders
    succeed; whatever happens next, the adapter then holds the pipeline and
    that tokenizer, and the rest of the attempt only calls the pipeline and
    encodes with the tokenizer: the catalogue is not queried and no other
    tokenizer is loaded for the token counts. *)
Theorem local_first_call_loads_once (model_id : string)
    (hf_kwargs : gmap string value) (st : State)
    (tk : Tokenizer) (mdl : Model) (pl : Pipeline) (w1 w2 w3 : World) :
  _local_model st = None ->
  AutoTokenizer_from_pretrained model_id (world st) = (Ok tk, w1) ->
  AutoModelForCausalLM_from_pretrained model_id w1 = (Ok mdl, w2) ->
  pipeline mdl tk w2 = (Ok pl, w3) ->
  let st' := snd (local_inference model_id hf_kwargs st) in
  _local_model st' = Some pl
  /\ tokenizer st' = Some tk
  /\ exists rest,
       trace st'
       = (trace st ++ [EvTokenizerLoad model_id; EvModelLoad model_id;
                       EvPipeline] ++ rest)%list
       /\ Forall inference_only rest.
Proof.
  intros Hnone Htk Hmdl Hpl.
  remember (local_inference model_id hf_kwargs st) as run eqn:Hrun.
  unfold local_inference in Hrun.
  unfold bind at 1 in Hrun. unfold get at 1 in Hrun. cbv beta iota in Hrun.
  rewrite Hnone in Hrun.
  unfold bind at 1 in Hrun. unfold bind at 1 in Hrun.
  unfold _load_local_model in Hrun.
  unfold try_except at 1 in Hrun. unfold bind at 1 in Hrun.
  unfold logger at 1 in Hrun. unfold modify at 1 in Hrun.
  cbv beta iota in Hrun.
  unfold bind at 1 in Hrun. unfold extern at 1 in Hrun.
  simpl world in Hrun. rewrite Htk in Hrun. cbv beta iota in Hrun.
  unfold bind at 1 in Hrun. unfold modify at 1 in Hrun. cbv beta iota in Hrun.
  unfold bind at 1 in Hrun. unfold extern at 1 in Hrun.
  simpl world in Hrun. rewrite Hmdl in Hrun. cbv beta iota in Hrun.
  unfold bind at 1 in Hrun. unfold extern at 1 in Hrun.
  simpl world in Hrun. rewrite Hpl in Hrun. cbv beta iota in Hrun.
  unfold bind at 1 in Hrun. unfold logger at 1 in Hrun.
  unfold modify at 1 in Hrun. cbv beta iota in Hrun.
  unfold ret at 1 in Hrun. cbv beta iota in Hrun.
  unfold bind at 1 in Hrun. unfold modify at 1 in Hrun. cbv beta iota in Hrun.
  unfold ret at 1 in Hrun. cbv beta iota in Hrun.
  match type of Hrun with
  | _ = ?c ?s =>
      assert (Hc : forall s0, _local_model s0 = Some pl ->
                              tokenizer s0 = Some tk ->
                              holding pl tk s0 (snd (c s0)));
      [|pose proof (Hc s eq_refl eq_refl) as Hs]
  end.
  { intros s0 Hm0 Ht0. unfold pop_required, pop.
    destruct (hf_kwargs !! "prompt") as [pv|];
      [|simpl; now apply holding_refl].
    unfold bind at 1. unfold ret at 1. cbv beta iota zeta.
    unfold bind at 1. unfold extern at 1. simpl fst. simpl snd.
    match goal with
    | |- context [pipeline_call pl pv ?kw (world s0)] =>
        destruct (pipeline_call pl pv kw (world s0)) as [[result|e] w] eqn:Hcall
    end.
    2:{ simpl. split; [exact Hm0|]. split; [exact Ht0|].
        eexists. split; [reflexivity|]. repeat constructor. }
    cbv beta iota.
    match goal with
    | |- holding pl tk s0 (snd (bind ?g ?k ?s1)) =>
        assert (Hstart : holding pl tk s0 s1);
        [|assert (Hg : forall s2, exists r, g s2 = (r, s2))]
    end.
    { split; [exact Hm0|]. split; [exact Ht0|].
      eexists. split; [reflexivity|]. repeat constructor. }
    { intros s2. destruct result as [[|[] l]|str]; try (eexists; reflexivity).
      destruct (default (VStr "") (_ !! "generated_text"));
        try (eexists; reflexivity).
      destruct pv; eexists; reflexivity. }
    match goal with
    | |- holding pl tk s0 (snd (bind ?g ?k ?s1)) =>
        unfold bind at 1; destruct (Hg s1) as (r & ->)
    end.
    destruct r as [g|e]; [|exact Hstart].
    eapply holding_trans; [exact Hstart|].
    apply make_raw_output_holding; simpl; assumption. }
  subst run. cbv zeta. destruct Hs as (Hm & Ht & evs & Htr & Hevs).
  split; [exact Hm|]. split; [exact Ht|]. exists evs.
  split; [|exact Hevs]. rewrite Htr. simpl. rewrite <- !app_assoc. reflexivity.
Qed.
End Facts.

Import Scenario.

(** The keyword arguments that the request [explain] merges to. *)
Definition explain_kwargs : gmap string value :=
  {[ "prompt" := VStr "Explain retries";
     "max_new_tokens" := VInt 512;
     "temperature" := VFloat 0.7;
     "timeout" := VNone ]}.

(** A request that names a model among its provider parameters. *)
Definition with_model : ChatRequest :=
  request (Some "Explain retries") None VNone {[ "model" := VStr "gpt2" ]}.

Definition with_model_kwargs : gmap string value :=
  <["model" := VStr "gpt2"]> explain_kwargs.

(** A request for the local path. *)
Definition locally : ChatRequest :=
  request (Some "Explain retries") None VNone
          {[ "use_local_model" := VBool true ]}.

(** An adapter that already holds its local model. *)
Definition warm : @State (flaky 0) :=
  @Build_State (flaky 0) mistral None (Some tt) 0%nat [] [].

(** An adapter that already holds its tokenizer. *)
Definition warm_tokenizer : @State (flaky 0) :=
  @Build_State (flaky 0) mistral (Some tt) None 0%nat [] [].

Definition unavailable : exn :=
  HTTPError (Some 503) "503 Server Error: Service Unavailable".

(** A backend whose endpoint fails with an HTTP error that carries no
    response. *)
Definition unreachable : Backend := {|
  World := nat;
  Tokenizer := unit;
  Model := unit;
  Pipeline := unit;
  HfApi_model_info := @HfApi_model_info (flaky 0);
  AutoTokenizer_from_pretrained := @AutoTokenizer_from_pretrained (flaky 0);
  tokenizer_encode := @tokenizer_encode (flaky 0);
  AutoModelForCausalLM_from_pretrained :=
    @AutoModelForCausalLM_from_pretrained (flaky 0);
  pipeline := @pipeline (flaky 0);
  pipeline_call := @pipeline_call (flaky 0);
  client_text_generation := fun _ _ _ w =>
    (Raise (HTTPError None "Connection aborted"), S w);
  text_generation_name := @text_generation_name (flaky 0);
  build_prompt := @build_prompt (flaky 0)
|}.

Definition cut_off : @State unreachable :=
  @Build_State unreachable mistral None None 0%nat [] [].


Lemma remote_failure_surfaces_witness :
  (exists st',
      forward_body (H := flaky 1) explain (fresh 1) = (Raise unavailable, st')
      /\ world st' = 1%nat)
  /\ (exists st',
        forward_body (H := unreachable) explain cut_off
        = (Raise (AttributeError
                    "'NoneType' object has no attribute 'status_code'"), st')
        /\ log st' = [invoked_record cut_off "Explain retries"]).
Proof.
  split.
  - destruct (remote_failure_surfaces (H := flaky 1) explain (fresh 1)
                "Explain retries" explain_kwargs unavailable 1%nat
                eq_refl ltac:(discriminate)
                ltac:(vm_compute; reflexivity) ltac:(vm_compute; reflexivity)
                ltac:(vm_compute; reflexivity) ltac:(vm_compute; reflexivity))
      as (st' & Hrun & _ & _ & Hworld & _).
    exists st'. split; [exact Hrun|exact Hworld].
  - destruct (remote_failure_surfaces (H := unreachable) explain cut_off
                "Explain retries" explain_kwargs
                (HTTPError None "Connection aborted") 1%nat
                eq_refl ltac:(discriminate)
                ltac:(vm_compute; reflexivity) ltac:(vm_compute; reflexivity)
                ltac:(vm_compute; reflexivity) ltac:(vm_compute; reflexivity))
      as (st' & Hrun & _ & Hlog & _).
    exists st'. split; [exact Hrun|exact Hlog].
Defined.

Lemma forward_sleeps_between_attempts_witness :
  is_ok (fst (forward (H := flaky 3) explain (fresh 3))) = false
  /\ seconds_slept (trace (snd (forward (H := flaky 3) explain (fresh 3))))
     = [1; 2].
Proof.
  assert (Hfails : is_ok (fst (forward (H := flaky 3) explain (fresh 3)))
                   = false) by (vm_compute; reflexivity).
  split; [exact Hfails|].
  destruct (forward_sleeps_between_attempts (H := flaky 3) explain (fresh 3))
    as (_ & slept & Hslept & _ & _ & Hall).
  rewrite Hslept, (Hall Hfails). reflexivity.
Defined.

Lemma forward_response_is_consistent_witness :
  exists response,
    fst (forward (H := flaky 0) explain (fresh 0)) = Ok response
    /\ consistent mistral response.
Proof.
  destruct (forward (H := flaky 0) explain (fresh 0))
    as [[response|exc] st'] eqn:Hrun.
  - exists response. split; [reflexivity|].
    exact (forward_response_is_consistent (H := flaky 0) explain (fresh 0)
             response st' Hrun).
  - exfalso. vm_compute in Hrun. discriminate Hrun.
Defined.

Lemma remote_call_is_what_is_sent_witness :
  exists rest,
    trace (snd (forward_body (H := flaky 0) explain (fresh 0)))
    = ([EvModelInfo "mistralai/Mistral-7B-Instruct-v0.2"]
         ++ EvTextGeneration (VStr "Explain retries")
              "mistralai/Mistral-7B-Instruct-v0.2"
              (sent_kwargs explain_kwargs) :: rest)%list
    /\ sent_kwargs explain_kwargs !! "timeout" = None
    /\ sent_kwargs explain_kwargs !! "max_new_tokens" = Some (VInt 512).
Proof.
  destruct (remote_call_is_what_is_sent (H := flaky 0) explain (fresh 0)
              "Explain retries" explain_kwargs
              eq_refl ltac:(discriminate)
              ltac:(vm_compute; reflexivity) ltac:(vm_compute; reflexivity)
              ltac:(vm_compute; reflexivity))
    as (rest & Htrace & _ & Htimeout & _ & Hkeys).
  exists rest. split; [exact Htrace|]. split; [exact Htimeout|].
  rewrite (Hkeys "max_new_tokens") by discriminate.
  vm_compute. reflexivity.
Defined.

Lemma provider_model_fails_remote_call_witness :
  exists st',
    forward_body (H := flaky 0) with_model (fresh 0)
    = (Raise
         (ProviderAPIError "HuggingFace"
            "API error: huggingface_hub.inference._client.InferenceClient.text_generation() got multiple values for keyword argument 'model'"
            (TypeError
               "huggingface_hub.inference._client.InferenceClient.text_generation() got multiple values for keyword argument 'model'")),
       st')
    /\ world st' = 0%nat.
Proof.
  destruct (provider_model_fails_remote_call (H := flaky 0) with_model
              (fresh 0) "Explain retries" with_model_kwargs (VStr "gpt2")
              eq_refl ltac:(discriminate)
              ltac:(vm_compute; reflexivity) ltac:(vm_compute; reflexivity)
              ltac:(vm_compute; reflexivity) eq_refl)
    as (st' & Hrun & _ & Hworld).
  exists st'. split; [exact Hrun|exact Hworld].
Defined.

Lemma forward_keeps_local_model_witness :
  _local_model (snd (forward (H := flaky 0) locally warm)) = Some tt
  /\ loads (trace (snd (forward (H := flaky 0) locally warm))) = 0%nat.
Proof.
  exact (forward_keeps_local_model (H := flaky 0) tt locally warm eq_refl).
Defined.

Lemma count_tokens_loads_tokenizer_once_witness :
  tokenizer (snd (_count_tokens (H := flaky 0) (VStr "abc") (fresh 0)))
  = Some tt
  /\ trace (snd (_count_tokens (H := flaky 0) (VStr "abc") (fresh 0)))
     = [EvModelInfo "mistralai/Mistral-7B-Instruct-v0.2";
        EvTokenizerLoad "mistralai/Mistral-7B-Instruct-v0.2";
        EvEncode (VStr "abc")]
  /\ trace (snd (_count_tokens (H := flaky 0) (VStr "abc") warm_tokenizer))
     = [EvEncode (VStr "abc")].
Proof.
  destruct (count_tokens_loads_tokenizer_once (H := flaky 0) (VStr "abc")
              (fresh 0)) as (_ & Hload).
  destruct (Hload eq_refl "mistralai/Mistral-7B-Instruct-v0.2" tt 0%nat
              eq_refl eq_refl) as (Htk & Htrace).
  destruct (count_tokens_loads_tokenizer_once (H := flaky 0) (VStr "abc")
              warm_tokenizer) as (Hcached & _).
  destruct (Hcached tt eq_refl) as (_ & Htrace').
  split; [exact Htk|]. split; [exact Htrace|exact Htrace'].
Defined.

Lemma local_path_strips_echo_witness :
  exists raw st',
    local_inference (H := flaky 0) "gpt2" explain_kwargs warm = (Ok raw, st')
    /\ generated_text raw = EmptyString
    /\ pipeline_kwargs explain_kwargs !! "timeout" = Some VNone.
Proof.
  destruct (local_path_strips_echo (H := flaky 0) "gpt2" explain_kwargs warm
              tt "Explain retries" "Explain retries"
              {[ "generated_text" := VStr "Explain retries" ]} [] 0%nat
              eq_refl ltac:(vm_compute; reflexivity) eq_refl
              ltac:(vm_compute; reflexivity))
    as ((raw & st' & Hrun & _ & _ & Hecho & _) & _ & _ & _ & Hkeys).
  exists raw, st'. split; [exact Hrun|]. split.
  - exact (Hecho EmptyString ltac:(vm_compute; reflexivity)).
  - rewrite (Hkeys "timeout") by discriminate. vm_compute. reflexivity.
Defined.

Lemma remote_answer_is_returned_witness :
  exists response st',
    forward (H := flaky 0) explain (fresh 0) = (Ok response, st')
    /\ data response = "Because networks fail.".
Proof.
  destruct (remote_answer_is_returned (H := flaky 0) explain (fresh 0)
              "Explain retries" explain_kwargs "Explain retries"
              "Because networks fail." 1%nat
              eq_refl ltac:(discriminate)
              ltac:(vm_compute; reflexivity) ltac:(vm_compute; reflexivity)
              ltac:(vm_compute; reflexivity) ltac:(vm_compute; reflexivity)
              ltac:(vm_compute; reflexivity))
    as [(response & st' & _ & Hrun & Hdata & _)|(st' & Hfails)].
  - exists response, st'. split; [exact Hrun|exact Hdata].
  - exfalso. vm_compute in Hfails. discriminate Hfails.
Defined.

Lemma local_first_call_loads_once_witness :
  let st' := snd (local_inference (H := flaky 0) "gpt2" explain_kwargs
                    (fresh 0)) in
  _local_model st' = Some tt
  /\ tokenizer st' = Some tt
  /\ loads (trace st') = 2%nat.
Proof.
  destruct (local_first_call_loads_once (H := flaky 0) "gpt2" explain_kwargs
              (fresh 0) tt tt tt 0%nat 0%nat 0%nat
              eq_refl eq_refl eq_refl eq_refl)
    as (Hmodel & Htokenizer & _).
  split; [exact Hmodel|]. split; [exact Htokenizer|].
  vm_compute. reflexivity.
Defined.

Lemma local_load_failure_is_wrapped_twice_witness :
  exists st' : @State offline,
    attempt (H := offline) mistral "gpt2" (VBool true) explain_kwargs
            disconnected
    = (Raise (surfaced
                (load_failure (Raised "OSError" "Can't load tokenizer"))),
       st')
    /\ _local_model st' = None
    /\ trace st' = [EvTokenizerLoad "gpt2"].
Proof.
  destruct (local_load_failure_is_wrapped_twice (H := offline) mistral "gpt2"
              (VBool true) explain_kwargs disconnected
              (Raised "OSError" "Can't load tokenizer") 0%nat
              eq_refl eq_refl eq_refl)
    as (st' & Hrun & Hmodel & _ & Htrace).
  exists st'. split; [exact Hrun|]. split; [exact Hmodel|exact Htrace].
Defined.

End AdapterFacts.

(** ** The ensemble operator: failures and composition *)

Module EnsembleComposition.
Import Ensemble EnsembleFacts.

Ltac run_module :=
  unfold call, render, emit, bind, try_except, modify, ret, raise; simpl.

Section Facts.
Variable World : Type.
Variable render_prompt : EnsembleOperatorInputs -> string.

(** The comprehension over an appended list is the comprehension over the
    first list followed, when it returns, by the one over the second. *)
Lemma comprehension_app lms1 : forall lms2 position p st,
  comprehension World position (lms1 ++ lms2) p st
  = match comprehension World position lms1 p st with
    | (Ok rs1, st1) =>
        match comprehension World (position + length lms1) lms2 p st1 with
        | (Ok rs2, st2) => (Ok (rs1 ++ rs2)%list, st2)
        | (Raise e, st2) => (Raise e, st2)
        end
    | (Raise e, st1) => (Raise e, st1)
    end.
Proof.
  induction lms1 as [|lm lms1 IH]; intros lms2 position p st.
  - simpl. unfold ret. rewrite Nat.add_0_r.
    destruct (comprehension World position lms2 p st) as [[rs|e] s];
      reflexivity.
  - simpl. unfold bind.
    destruct (call World position lm p st) as [[r|e] s1]; [|reflexivity].
    rewrite IH.
    replace (position + S (length lms1))%nat
      with (S position + length lms1)%nat by lia.
    destruct (comprehension World (S position) lms1 p s1) as [[rs1|e] s2];
      [|reflexivity].
    unfold ret.
    destruct (comprehension World (S position + length lms1) lms2 p s2)
      as [[rs2|e] s3]; reflexivity.
Qed.

Lemma comprehension_answered lms : forall position p st rs w,
  answered World p lms (world st) rs w ->
  comprehension World position lms p st
  = (Ok rs, {| world := w;
               trace := trace st
                        ++ sequential_calls position p (map Ok rs) |}).
Proof.
  induction lms as [|lm lms IH]; intros position p st rs w Hans.
  - inversion Hans; subst. simpl. unfold ret. rewrite app_nil_r.
    destruct st; reflexivity.
  - inversion Hans as [|? ? ? r w' rs' ? Hlm Hrest]; subst.
    simpl. run_module. rewrite Hlm. simpl.
    rewrite (IH (S position) p _ rs' w) by exact Hrest.
    simpl. rewrite <- !app_assoc. reflexivity.
Qed.

Lemma sequential_calls_app os1 : forall os2 position p,
  sequential_calls position p (os1 ++ os2)
  = (sequential_calls position p os1
     ++ sequential_calls (position + length os1) p os2)%list.
Proof.
  induction os1 as [|o os1 IH]; intros os2 position p; simpl.
  - now rewrite Nat.add_0_r.
  - rewrite IH. now replace (position + S (length os1))%nat
      with (S position + length os1)%nat by lia.
Qed.

(** X16.  Modules appended to an ensemble do not disturb the ones before
    them: when the run over the first modules returns, the run over all of
    them gives the same responses followed by those of the appended
    modules, called from the state the first ones left and numbered after
    them, or raises what the first failing appended module raises; when the
    run over the first modules raises, the run over all of them raises the
    same exception in the same state.  An ensemble without modules returns
    no responses. *)
Theorem forward_over_appended_modules
    (lms1 lms2 : list (LMModule World)) (inputs : EnsembleOperatorInputs)
    (st : State World) :
  forward World render_prompt {| lm_modules := lms1 ++ lms2 |} inputs st
  = match forward World render_prompt {| lm_modules := lms1 |} inputs st with
    | (Ok out1, st1) =>
        match comprehension World (length lms1) lms2
                (render_prompt inputs) st1 with
        | (Ok rs2, st2) =>
            (Ok {| responses := responses out1 ++ rs2 |}, st2)
        | (Raise e, st2) => (Raise e, st2)
        end
    | (Raise e, st1) => (Raise e, st1)
    end
  /\ forward World render_prompt {| lm_modules := [] |} inputs st
     = (Ok {| responses := [] |},
        {| world := world st; trace := trace st ++ [EvRender inputs] |}).
Proof.
  split; [|reflexivity].
  unfold forward, render, emit, bind, modify, ret. simpl.
  rewrite comprehension_app. simpl.
  match goal with
  | |- context [comprehension World 0 lms1 ?p ?s] =>
      destruct (comprehension World 0 lms1 p s) as [[rs1|e] s1]
  end; [|reflexivity].
  destruct (comprehension World (length lms1) lms2 (render_prompt inputs) s1)
    as [[rs2|e] s2]; reflexivity.
Qed.

(** X17.  The operator neither catches nor wraps a failure: when the
    modules before one answer and that one raises, the run raises that very
    exception and returns no partial responses; the modules after it are
    not called, the world being the one the failing module left. *)
Theorem forward_raises_first_failure
    (before after : list (LMModule World)) (lm : LMModule World)
    (inputs : EnsembleOperatorInputs) (st : State World)
    (rs : list string) (w w' : World) (exc : exn) :
  answered World (render_prompt inputs) before (world st) rs w ->
  lm (render_prompt inputs) w = (Raise exc, w') ->
  forward World render_prompt {| lm_modules := before ++ lm :: after |}
          inputs st
  = (Raise exc,
     {| world := w';
        trace := trace st ++ EvRender inputs
                   :: sequential_calls 0 (render_prompt inputs)
                        (map Ok rs ++ [Raise exc]) |}).
Proof.
  intros Hans Hlm.
  unfold forward, render, emit, bind, modify, ret. simpl.
  rewrite comprehension_app.
  rewrite (comprehension_answered before 0 (render_prompt inputs) _ rs w)
    by exact Hans.
  simpl. run_module. rewrite Hlm. simpl. f_equal. f_equal.
  rewrite <- !app_assoc. simpl. f_equal. f_equal.
  rewrite sequential_calls_app, length_map.
  rewrite (answered_length World _ _ _ _ _ Hans). reflexivity.
Qed.

End Facts.

Lemma forward_raises_first_failure_witness :
  Ensemble.forward nat query
    {| lm_modules := [Scenario.constant_lm "A"] ++ Scenario.failing_lm
                       :: [Scenario.constant_lm "C"] |}
    {| query := "Why?" |} Scenario.idle
  = (Raise (Raised "ProviderAPIError" "API error"),
     {| world := 2%nat;
        trace := [EvRender {| query := "Why?" |};
                  EvCall 0 "Why?"; EvReturn 0 (Ok "A");
                  EvCall 1 "Why?";
                  EvReturn 1 (Raise (Raised "ProviderAPIError" "API error"))]
     |}).
Proof.
  apply (forward_raises_first_failure nat query
           [Scenario.constant_lm "A"] [Scenario.constant_lm "C"]
           Scenario.failing_lm {| query := "Why?" |} Scenario.idle
           ["A"] 1%nat 2%nat (Raised "ProviderAPIError" "API error")).
  - econstructor; [reflexivity|constructor].
  - reflexivity.
Defined.

End EnsembleComposition.
